(** * Aegis Test interfaces generator: model and properties

    A shallow embedding of [scripts/generate.py] (the generator) and of the
    Python wrapper it ships, [aegis_interfaces/messaging/destination.py] and
    [topics.py].

    Python [str] values are modelled as [string] (byte strings; the case
    conversions act on the ASCII letters, which is what they do on the
    kebab-case names the generator is fed).  Python dictionaries keep their
    insertion order and the emitters iterate over them, so they are modelled
    as association lists with in-place update.  Exceptions are values of
    [error]; the generator's methods live in a small state-and-error monad
    over the generator's fields and the log of file-system operations. *)

From Stdlib Require Import String Ascii List Bool Arith ZArith Lia.
From Stdlib Require Import Permutation Sorted.
Import ListNotations.

Local Open Scope list_scope.
Local Open Scope string_scope.

(** ** Python string operations used by the generator *)

Module PyStr.

Definition nl : string := String (ascii_of_nat 10) EmptyString.
Definition dq : string := String (ascii_of_nat 34) EmptyString.

Definition is_lower (c : ascii) : bool :=
  (97 <=? nat_of_ascii c)%nat && (nat_of_ascii c <=? 122)%nat.

Definition is_upper (c : ascii) : bool :=
  (65 <=? nat_of_ascii c)%nat && (nat_of_ascii c <=? 90)%nat.

Definition upper_char (c : ascii) : ascii :=
  if is_lower c then ascii_of_nat (nat_of_ascii c - 32) else c.

Definition lower_char (c : ascii) : ascii :=
  if is_upper c then ascii_of_nat (nat_of_ascii c + 32) else c.

Fixpoint map (f : ascii -> ascii) (s : string) : string :=
  match s with
  | EmptyString => EmptyString
  | String c s' => String (f c) (map f s')
  end.

(** [s.upper()] and [s.lower()] *)
Definition upper : string -> string := map upper_char.
Definition lower : string -> string := map lower_char.

(** [s.capitalize()]: first character upper-cased, the rest lower-cased. *)
Definition capitalize (s : string) : string :=
  match s with
  | EmptyString => EmptyString
  | String c s' => String (upper_char c) (lower s')
  end.

(** [s.split(sep)] for a one-character separator: every occurrence splits,
    empty pieces are kept, and the empty string gives one empty piece. *)
Fixpoint split (sep : ascii) (s : string) : list string :=
  match s with
  | EmptyString => [EmptyString]
  | String c s' =>
      if Ascii.eqb c sep then EmptyString :: split sep s'
      else match split sep s' with
           | w :: ws => String c w :: ws
           | [] => [String c EmptyString]
           end
  end.

(** [sep.join(pieces)] *)
Definition join (sep : string) (pieces : list string) : string :=
  String.concat sep pieces.

(** [s.replace(old, new)] for a one-character [old]. *)
Fixpoint replace (old : ascii) (new : string) (s : string) : string :=
  match s with
  | EmptyString => EmptyString
  | String c s' =>
      if Ascii.eqb c old then new ++ replace old new s'
      else String c (replace old new s')
  end.

(** [s.title()]: a letter that follows a letter is lower-cased, any other
    letter is upper-cased, other characters are kept. *)
Fixpoint title_from (previous_is_cased : bool) (s : string) : string :=
  match s with
  | EmptyString => EmptyString
  | String c s' =>
      if is_lower c || is_upper c then
        String (if previous_is_cased then lower_char c else upper_char c)
               (title_from true s')
      else String c (title_from false s')
  end.

Definition title : string -> string := title_from false.

(** The cut at the last occurrence of [sep]: the text before it and the
    text after it, or [None] when [sep] does not occur
    ([s.rpartition(sep)], [s.rfind(sep)]). *)
Fixpoint rcut (sep : ascii) (s : string) : option (string * string) :=
  match s with
  | EmptyString => None
  | String c s' =>
      match rcut sep s' with
      | Some (before, after) => Some (String c before, after)
      | None => if Ascii.eqb c sep then Some (EmptyString, s') else None
      end
  end.

(** [s.rsplit(sep, 1)[0]] *)
Definition rsplit1_head (sep : ascii) (s : string) : string :=
  match rcut sep s with
  | Some (before, _) => before
  | None => s
  end.

(** [s.endswith(suffix)] *)
Fixpoint endswith (s suffix : string) : bool :=
  String.eqb s suffix
  || match s with
     | EmptyString => false
     | String _ s' => endswith s' suffix
     end.

(** No occurrence of the character [c] in [s]. *)
Fixpoint free_of (c : ascii) (s : string) : bool :=
  match s with
  | EmptyString => true
  | String c' s' => negb (Ascii.eqb c' c) && free_of c s'
  end.

End PyStr.

(** [pathlib.PurePath.stem] of a file name: the name without its last
    suffix; a name whose last dot is its first or its last character has no
    suffix. *)
Definition stem (name : string) : string :=
  match PyStr.rcut "." name with
  | Some (before, after) =>
      match before, after with
      | EmptyString, _ => name
      | _, EmptyString => name
      | _, _ => before
      end
  | None => name
  end.

(** [sorted(items, key=...)]: Python's sort is stable, and so is this
    insertion sort, which puts an item in front of the first item whose key is
    not smaller.  Keys are compared as Python compares [str] values
    (lexicographically). *)
Section Sorting.
Context {A : Type} (key : A -> string).

Fixpoint insert_by (x : A) (l : list A) : list A :=
  match l with
  | [] => [x]
  | y :: l' =>
      if String.leb (key x) (key y) then x :: l else y :: insert_by x l'
  end.

Definition sorted (l : list A) : list A := fold_right insert_by [] l.
End Sorting.

(** ** Dictionaries

    A [dict] keeps its keys in insertion order; assigning to a key that is
    present replaces the value where the key stands. *)
Section Dict.
Context {V : Type}.

Definition dict : Type := list (string * V).

Fixpoint dict_get (k : string) (d : dict) : option V :=
  match d with
  | [] => None
  | (k', v) :: d' => if String.eqb k' k then Some v else dict_get k d'
  end.

(** [k in d] *)
Definition dict_mem (k : string) (d : dict) : bool :=
  match dict_get k d with
  | Some _ => true
  | None => false
  end.

(** [d[k] = v] *)
Fixpoint dict_set (k : string) (v : V) (d : dict) : dict :=
  match d with
  | [] => [(k, v)]
  | (k', v') :: d' =>
      if String.eqb k' k then (k, v) :: d' else (k', v') :: dict_set k v d'
  end.

(** [list(d.keys())] *)
Definition dict_keys (d : dict) : list string := List.map fst d.
End Dict.
Arguments dict V : clear implicits.

(** ** Documents

    What [json.load] and [yaml.safe_load] return, and what [yaml.dump]
    takes: a tree of scalars, lists and string-keyed mappings.  The generator
    never looks inside a number. *)
#[local] Set Warnings "-register-all".
Inductive value : Type :=
| VNull
| VBool (b : bool)
| VNum (n : Z)
| VStr (s : string)
| VList (items : list value)
| VDict (members : list (string * value)).

(** The member of a document found by following [path] through nested
    mappings. *)
Fixpoint value_at (path : list string) (v : value) : option value :=
  match path with
  | [] => Some v
  | k :: path' =>
      match v with
      | VDict members =>
          match dict_get k members with
          | Some v' => value_at path' v'
          | None => None
          end
      | _ => None
      end
  end.

(** ** The data model of [generate.py] *)

Module Event.
Record t : Type := mk {
  name : string;
  schema_path : string;
  schema : dict value
}.

(** [self.schema.get("title", self.name)].  The property is annotated
    [-> str]: a title is a string when the document has one.  (On a title
    of another type the model gives the name.) *)
Definition schema_name (e : t) : string :=
  match dict_get "title" (schema e) with
  | Some (VStr title) => title
  | Some _ => name e
  | None => name e
  end.

(** [self.schema.get("description", "")] *)
Definition description (e : t) : value :=
  match dict_get "description" (schema e) with
  | Some d => d
  | None => VStr ""
  end.
End Event.

Module Topic.
Record t : Type := mk {
  name : string;
  topic : string;
  description : string;
  produced_by : list string;
  consumed_by : list string;
  subscriptions : dict string;
  event_schema : string;
  event_type : string
}.

Definition get_default_consumer (self : t) : option string :=
  match consumed_by self with
  | [c] => Some c
  | _ => None
  end.

Definition get_java_constant_name (self : t) : string :=
  PyStr.join "_" (PyStr.split "-" (PyStr.upper (name self))).
End Topic.

(** A topic definition file as [yaml.safe_load] returns it, read through the
    fields [load_topics] asks for, at the types the [Topic] dataclass
    declares; [None] is a key the document does not have. *)
Module TopicDef.
Record payload_t : Type := mk_payload {
  schema : option string;
  type : option string
}.

Record t : Type := mk {
  name : option string;
  topic : option string;
  description : option string;
  producedBy : option (list string);
  consumedBy : option (list string);
  subscriptions : option (dict string);
  payload : option payload_t
}.
End TopicDef.

(** The input of a run: the two source directories under the repository
    root, each absent or listed as the operating system enumerates it
    (file name and parsed content, in no particular order). *)
Record Repo : Type := {
  events_dir : option (list (string * dict value));
  topics_dir : option (list (string * TopicDef.t))
}.

(** ** Exceptions *)
Inductive error : Type :=
| FileNotFoundError (what dir : string)
| MissingField (file field : string)
| IndexError
| KeyError (key : string)
| UnknownEventSchema (topic_name reference : string)
| InvalidType (topic_name kind : string).

(** [str(e)]: the text [run] prints before it exits with status 1. *)
Definition message (e : error) : string :=
  match e with
  | FileNotFoundError what dir => what ++ " directory not found: " ++ dir
  | MissingField file field =>
      "Topic " ++ file ++ " missing required field: " ++ field
  | IndexError => "list index out of range"
  | KeyError key => "'" ++ key ++ "'"
  | UnknownEventSchema topic_name reference =>
      "Topic '" ++ topic_name ++ "' references unknown event schema: "
      ++ reference
  | InvalidType topic_name kind =>
      "Topic '" ++ topic_name ++ "' has invalid type '" ++ kind
      ++ "'. Only 'event' is supported."
  end.

(** ** The file system, as the generator acts on it

    Paths are relative to the repository root, one component per [/] of the
    source.  A file is written with a text, or with [yaml.dump] of a
    document (the serializer is PyYAML's). *)
Definition path : Type := list string.

Inductive content : Type :=
| Text (text : string)
| YamlDump (document : value).

Inductive fs_op : Type :=
| Mkdir (dir : path)
| WriteFile (file : path) (c : content).

(** ** The generator and its monad *)
Record Generator : Type := mkGenerator {
  events : dict Event.t;
  topics : list Topic.t;
  domains : dict (list Topic.t);
  fs_log : list fs_op
}.

(** [Generator(repo_root)] *)
Definition init : Generator :=
  {| events := []; topics := []; domains := []; fs_log := [] |}.

Definition M (A : Type) : Type := Generator -> Generator * (error + A).

Definition ret {A : Type} (a : A) : M A := fun g => (g, inr a).

Definition raise {A : Type} (e : error) : M A := fun g => (g, inl e).

Definition bind {A B : Type} (m : M A) (k : A -> M B) : M B :=
  fun g =>
    match m g with
    | (g', inr a) => k a g'
    | (g', inl e) => (g', inl e)
    end.

Declare Scope gen_scope.
Delimit Scope gen_scope with gen.
Notation "x <- m ;; k" := (bind m (fun x => k))
  (at level 61, m at next level, right associativity) : gen_scope.
Notation "m ;; k" := (bind m (fun _ => k))
  (at level 61, right associativity) : gen_scope.
Local Open Scope gen_scope.

Definition get : M Generator := fun g => (g, inr g).

Definition modify (f : Generator -> Generator) : M unit :=
  fun g => (f g, inr tt).

(** A file-system operation: appended to the log.  The operation is taken
    to succeed; an [OSError] of [open] or [mkdir] is not modelled. *)
Definition perform (op : fs_op) : M unit :=
  modify (fun g =>
    {| events := events g; topics := topics g; domains := domains g;
       fs_log := (fs_log g ++ [op])%list |}).

(** [for x in l: body(x)] *)
Fixpoint for_each {A : Type} (l : list A) (body : A -> M unit) : M unit :=
  match l with
  | [] => ret tt
  | x :: l' => body x ;; for_each l' body
  end.

(** A partial read: [None] raises [e]. *)
Definition or_raise {A : Type} (e : error) (o : option A) : M A :=
  match o with
  | Some a => ret a
  | None => raise e
  end.

(** [topic.topic.split(".")[1]] *)
Definition domain_of (t : Topic.t) : option string :=
  nth_error (PyStr.split "." (Topic.topic t)) 1.

(** ** Loading *)

(** The [Event(...)] that [load_events] builds from a schema file: its name
    is [json_file.stem.rsplit(".", 1)[0]]. *)
Definition event_of_file (json_file : string * dict value) : Event.t :=
  let base_name := PyStr.rsplit1_head "." (stem (fst json_file)) in
  {| Event.name := base_name;
     Event.schema_path := "events/" ++ fst json_file;
     Event.schema := snd json_file |}.

(** [sorted(directory.glob(pattern))] for the pattern of a suffix: the
    entries whose name ends with it, in the order of their names. *)
Definition sorted_glob {A : Type} (suffix : string)
    (entries : list (string * A)) : list (string * A) :=
  sorted fst (filter (fun f => PyStr.endswith (fst f) suffix) entries).

Definition load_events (repo : Repo) : M unit :=
  entries <- or_raise (FileNotFoundError "Events" "events") (events_dir repo) ;;
  for_each (sorted_glob ".json" entries)
    (fun json_file =>
       let event := event_of_file json_file in
       modify (fun g =>
         {| events := dict_set (Event.schema_name event) event (events g);
            topics := topics g; domains := domains g; fs_log := fs_log g |})).

(** The loop over [required_fields]: the first missing one is reported. *)
Definition check_required_fields (file : string) (d : TopicDef.t) : M unit :=
  let present {A : Type} (field : string) (o : option A) : M unit :=
    match o with
    | Some _ => ret tt
    | None => raise (MissingField file field)
    end in
  present "name" (TopicDef.name d) ;;
  present "topic" (TopicDef.topic d) ;;
  present "producedBy" (TopicDef.producedBy d) ;;
  present "consumedBy" (TopicDef.consumedBy d) ;;
  present "subscriptions" (TopicDef.subscriptions d) ;;
  present "payload" (TopicDef.payload d).

Definition get_or {A : Type} (o : option A) (default : A) : A :=
  match o with
  | Some a => a
  | None => default
  end.

(** The [Topic(...)] that [load_topics] builds from a document that has the
    six required fields. *)
Definition topic_of_def (d : TopicDef.t) : Topic.t :=
  let payload := get_or (TopicDef.payload d) (TopicDef.mk_payload None None) in
  {| Topic.name := get_or (TopicDef.name d) "";
     Topic.topic := get_or (TopicDef.topic d) "";
     Topic.description := get_or (TopicDef.description d) "";
     Topic.produced_by := get_or (TopicDef.producedBy d) [];
     Topic.consumed_by := get_or (TopicDef.consumedBy d) [];
     Topic.subscriptions := get_or (TopicDef.subscriptions d) [];
     Topic.event_schema := get_or (TopicDef.schema payload) "";
     Topic.event_type := get_or (TopicDef.type payload) "event" |}.

Definition load_topics (repo : Repo) : M unit :=
  entries <- or_raise (FileNotFoundError "Topics" "topics") (topics_dir repo) ;;
  for_each (sorted_glob ".yaml" entries)
    (fun yaml_file =>
       let topic_def := snd yaml_file in
       check_required_fields (fst yaml_file) topic_def ;;
       let topic := topic_of_def topic_def in
       modify (fun g =>
         {| events := events g; topics := (topics g ++ [topic])%list;
            domains := domains g; fs_log := fs_log g |}) ;;
       domain <- or_raise IndexError (domain_of topic) ;;
       modify (fun g =>
         let bucket := get_or (dict_get domain (domains g)) [] in
         {| events := events g; topics := topics g;
            domains := dict_set domain (bucket ++ [topic])%list (domains g);
            fs_log := fs_log g |})).

(** ** Validation *)

Definition validate : M unit :=
  g <- get ;;
  for_each (topics g)
    (fun topic =>
       (if dict_mem (Topic.event_schema topic) (events g) then ret tt
        else raise (UnknownEventSchema (Topic.name topic)
                                       (Topic.event_schema topic))) ;;
       if String.eqb (Topic.event_type topic) "event" then ret tt
       else raise (InvalidType (Topic.name topic) (Topic.event_type topic))).

(** ** The interface document *)

Import PyStr.

(** The fixed part of the document, before the loop fills the three
    collections. *)
Definition asyncapi_info : value :=
  VDict
    [("title", VStr "Aegis Test Event-Driven Architecture");
     ("description",
      VStr ("Complete event topology for the Aegis Test system." ++ nl
            ++ "This specification defines all events flowing through Google Cloud Pub/Sub,"
            ++ nl ++ "including producers, consumers, and payload schemas."));
     ("version", VStr "1.0.0");
     ("contact",
      VDict [("name", VStr "Aegis Test Team");
             ("url", VStr "https://github.com/peguidotte/interface-aegis-test")]);
     ("license", VDict [("name", VStr "MIT")])].

Definition asyncapi_servers : value :=
  VDict
    [("production",
      VDict
        [("host", VStr "pubsub.googleapis.com");
         ("protocol", VStr "googlepubsub");
         ("description", VStr "Google Cloud Pub/Sub production server");
         ("variables",
          VDict
            [("projectId",
              VDict [("default", VStr "aegis-test-prod");
                     ("description", VStr "Google Cloud Project ID")])])])].

Definition asyncapi_message_traits : value :=
  VDict
    [("CommonEventMetadata",
      VDict
        [("headers",
          VDict
            [("type", VStr "object");
             ("properties",
              VDict
                [("schema",
                  VDict [("type", VStr "string");
                         ("description", VStr "Schema identifier for validation");
                         ("example", VStr "SpecificationRequestedEventV1")]);
                 ("correlationId",
                  VDict [("type", VStr "string");
                         ("format", VStr "uuid");
                         ("description",
                          VStr "Correlation ID for tracing events across services")]);
                 ("source",
                  VDict [("type", VStr "string");
                         ("description", VStr "Service that published the event");
                         ("example", VStr "portal")]);
                 ("timestamp",
                  VDict [("type", VStr "string");
                         ("format", VStr "date-time");
                         ("description",
                          VStr "Server timestamp when event was published")])])])])].

(** The three collections the loop of [generate_asyncapi] fills. *)
Record collections : Type := mkCollections {
  channels : dict value;
  messages : dict value;
  schemas : dict value
}.

Definition asyncapi_of (c : collections) : value :=
  VDict
    [("asyncapi", VStr "3.1.0");
     ("info", asyncapi_info);
     ("defaultContentType", VStr "application/json");
     ("servers", asyncapi_servers);
     ("channels", VDict (channels c));
     ("components",
      VDict [("messages", VDict (messages c));
             ("schemas", VDict (schemas c));
             ("messageTraits", asyncapi_message_traits)])].

Definition channel_entry (topic : Topic.t) : value :=
  let topology :=
    "Producer: " ++ join ", " (Topic.produced_by topic) ++ nl
    ++ "Consumer: " ++ join ", " (Topic.consumed_by topic) in
  VDict
    [("address", VStr ("projects/{projectId}/topics/" ++ Topic.topic topic));
     ("title", VStr (title (replace "-" " " (Topic.name topic))));
     ("description",
      VStr (Topic.description topic ++ nl ++ nl ++ "**Topology:**" ++ nl ++ "- "
            ++ replace (ascii_of_nat 10) (nl ++ "- ") topology
            ++ nl ++ "- Guarantee: at-least-once"));
     ("messages",
      VDict
        [(Topic.event_schema topic,
          VDict [("$ref",
                  VStr ("#/components/messages/" ++ Topic.event_schema topic))])]);
     ("bindings",
      VDict
        [("googlepubsub",
          VDict
            [("schemaSettings",
              VDict [("name", VStr (Topic.event_schema topic));
                     ("encoding", VStr "json")])])])].

Definition message_entry (topic : Topic.t) (event : Event.t) : value :=
  VDict
    [("name", VStr (Topic.event_schema topic));
     ("title", VStr (Event.schema_name event));
     ("contentType", VStr "application/json");
     ("description", Event.description event);
     ("payload",
      VDict [("$ref",
              VStr ("#/components/schemas/" ++ Topic.event_schema topic))]);
     ("traits",
      VList
        [VDict [("$ref",
                 VStr "#/components/messageTraits/CommonEventMetadata")]])].

(** One turn of the loop [for topic in self.topics] of [generate_asyncapi];
    [self.events[topic.event_schema]] raises [KeyError] on a missing key. *)
Definition add_topic (events : dict Event.t) (topic : Topic.t)
    (c : collections) : error + collections :=
  match dict_get (Topic.event_schema topic) events with
  | None => inl (KeyError (Topic.event_schema topic))
  | Some event =>
      let channels' := dict_set (Topic.name topic) (channel_entry topic) (channels c) in
      let messages' :=
        if dict_mem (Topic.event_schema topic) (messages c) then messages c
        else dict_set (Topic.event_schema topic) (message_entry topic event)
                      (messages c) in
      let schemas' :=
        if dict_mem (Topic.event_schema topic) (schemas c) then schemas c
        else dict_set (Topic.event_schema topic) (VDict (Event.schema event))
                      (schemas c) in
      inr (mkCollections channels' messages' schemas')
  end.

Fixpoint add_topics (events : dict Event.t) (l : list Topic.t)
    (c : collections) : error + collections :=
  match l with
  | [] => inr c
  | topic :: l' =>
      match add_topic events topic c with
      | inl e => inl e
      | inr c' => add_topics events l' c'
      end
  end.

Definition asyncapi_path : path := ["asyncapi.yaml"].

Definition generate_asyncapi : M unit :=
  g <- get ;;
  match add_topics (events g) (topics g) (mkCollections [] [] []) with
  | inl e => raise e
  | inr c => perform (WriteFile asyncapi_path (YamlDump (asyncapi_of c)))
  end.

(** ** The Java target *)

(** Python's truth value of an optional string and of a string: [None] and
    the empty string are false. *)
Definition truthy (o : option string) : bool :=
  match o with
  | Some EmptyString => false
  | Some _ => true
  | None => false
  end.

Definition truthy_str (s : string) : bool :=
  match s with
  | EmptyString => false
  | _ => true
  end.

Definition tq : string := dq ++ dq ++ dq.

(** [str.format] and the f-strings print [None] as the text None. *)
Definition str_of (o : option string) : string := get_or o "None".

(** ["".join(word.capitalize() for word in topic.name.split("-"))] *)
Definition class_name_of (topic : Topic.t) : string :=
  join "" (List.map capitalize (split "-" (Topic.name topic))).

(** The list [output] of [_generate_java_class], which is joined into the
    class text. *)
Definition java_class_output (topic : Topic.t) (class_name domain : string)
    : list string :=
  let default_consumer := Topic.get_default_consumer topic in
  let subscriptions_lines :=
    List.map (fun item => "            " ++ dq ++ fst item ++ dq ++ ", "
                          ++ dq ++ snd item ++ dq)
             (Topic.subscriptions topic) in
  let subscriptions_map :=
    match subscriptions_lines with
    | [] => "Map.of();"
    | [line] => "Map.of(" ++ nl ++ line ++ nl ++ "        );"
    | _ => "Map.of(" ++ nl ++ join ("," ++ nl) subscriptions_lines ++ nl
           ++ "        );"
    end in
  let get_subscription_impl :=
    if truthy default_consumer then
      "    @Override" ++ nl
      ++ "    public String getSubscription() {" ++ nl
      ++ "        return getSubscription(DEFAULT_CONSUMER);" ++ nl
      ++ "    }"
    else
      "    @Override" ++ nl
      ++ "    public String getSubscription() {" ++ nl
      ++ "        throw new UnsupportedOperationException(" ++ nl
      ++ "            " ++ dq ++ "Topic " ++ dq ++ " + NAME + " ++ dq ++ " has multiple consumers. " ++ dq ++ " +" ++ nl
      ++ "            " ++ dq ++ "Available consumers: " ++ dq ++ " + SUBSCRIPTIONS.keySet() + " ++ dq ++ ". " ++ dq ++ " +" ++ nl
      ++ "            " ++ dq ++ "Use getSubscription(consumer) instead." ++ dq ++ nl
      ++ "        );" ++ nl
      ++ "    }" in
  let default_consumer_decl :=
    if truthy default_consumer then
      "private static final String DEFAULT_CONSUMER = " ++ dq ++ str_of default_consumer ++ dq ++ ";"
    else "" in
  let const_name := join "_" (split "-" (upper (Topic.name topic))) in
  List.concat
  [[("package com.interfaces.aegis.test.topics." ++ domain ++ ";");
   EmptyString;
   "import com.interfaces.aegis.test.messaging.Destination;";
   "import java.util.Map;";
   "import java.util.Objects;";
   EmptyString;
   "/**";
   (" * Destination for " ++ Topic.name topic ++ " event.");
   " * ";
   (" * <p>" ++ Topic.description topic ++ "</p>");
   " * ";
   (" * <p><strong>Contract:</strong> {" ++ ("@code " ++ Topic.event_schema topic) ++ "}</p>");
   " * ";
   (" * @see com.interfaces.aegis.test.messaging.Topics#" ++ const_name);
   " */";
   ("public final class " ++ class_name ++ " implements Destination {");
   "    ";
   ("    private static final String NAME = " ++ dq ++ Topic.name topic ++ dq ++ ";");
   ("    private static final String TOPIC = " ++ dq ++ Topic.topic topic ++ dq ++ ";");
   ("    private static final String SCHEMA = " ++ dq ++ Topic.event_schema topic ++ dq ++ ";")];
   (if truthy_str default_consumer_decl then ["    " ++ default_consumer_decl] else []);
   ["    ";
   ("    private static final Map<String, String> SUBSCRIPTIONS = " ++ subscriptions_map);
   "    ";
   ("    public " ++ class_name ++ "() {");
   "        // Public constructor for instantiation";
   "    }";
   "    ";
   "    @Override";
   "    public String getName() {";
   "        return NAME;";
   "    }";
   "    ";
   "    @Override";
   "    public String getTopic() {";
   "        return TOPIC;";
   "    }";
   "    ";
   "    @Override";
   "    public String getSubscription(String consumer) {";
   ("        Objects.requireNonNull(consumer, " ++ dq ++ "consumer cannot be null" ++ dq ++ ");");
   "        String subscription = SUBSCRIPTIONS.get(consumer);";
   "        if (subscription == null) {";
   "            throw new IllegalArgumentException(";
   ("                " ++ dq ++ "Unknown consumer " ++ dq ++ " + consumer + " ++ dq ++ " for topic " ++ dq ++ " + NAME + " ++ dq ++ ". " ++ dq ++ " +");
   ("                " ++ dq ++ "Valid consumers: " ++ dq ++ " + SUBSCRIPTIONS.keySet()");
   "            );";
   "        }";
   "        return subscription;";
   "    }";
   "    ";
   get_subscription_impl;
   "    ";
   "    @Override";
   "    public String getSchema() {";
   "        return SCHEMA;";
   "    }";
   "    ";
   "    @Override";
   "    public String toString() {";
   ("        return " ++ dq ++ class_name ++ "{" ++ dq ++ " +");
   ("               " ++ dq ++ "name='" ++ dq ++ " + NAME + " ++ dq ++ "'" ++ dq ++ " +");
   ("               " ++ dq ++ ", topic='" ++ dq ++ " + TOPIC + " ++ dq ++ "'" ++ dq ++ " +");
   ("               " ++ dq ++ ", schema='" ++ dq ++ " + SCHEMA + " ++ dq ++ "'" ++ dq ++ " +");
   ("               " ++ dq ++ "}" ++ dq ++ ";");
   "    }";
   "    ";
   "    @Override";
   "    public boolean equals(Object o) {";
   "        if (this == o) return true;";
   "        if (o == null || getClass() != o.getClass()) return false;";
   ("        " ++ class_name ++ " that = (" ++ class_name ++ ") o;");
   "        return Objects.equals(TOPIC, that.getTopic());";
   "    }";
   "    ";
   "    @Override";
   "    public int hashCode() {";
   "        return Objects.hash(TOPIC);";
   "    }";
   "}"]].

Definition _generate_java_class (topic : Topic.t) (class_name : string)
    : error + string :=
  match domain_of topic with
  | None => inl IndexError
  | Some domain => inr (join nl (java_class_output topic class_name domain) ++ nl)
  end.

Definition java_root : path := ["wrappers"; "java"].

Definition java_package_dir : path :=
  (java_root ++ ["src"; "main"; "java"; "com"; "interfaces"; "aegis"; "test"])%list.

Definition generate_java_wrappers_topic (topic : Topic.t) : M unit :=
  domain <- or_raise IndexError (domain_of topic) ;;
  let domain_dir := (java_package_dir ++ ["topics"; domain])%list in
  perform (Mkdir domain_dir) ;;
  let class_name := class_name_of topic in
  let java_file := List.app domain_dir [class_name ++ ".java"] in
  match _generate_java_class topic class_name with
  | inl e => raise e
  | inr java_code => perform (WriteFile java_file (Text java_code))
  end.

(** The import line of a topic, in the first loop of
    [_generate_java_topics_registry]. *)
Definition java_import (topic : Topic.t) : error + string :=
  match domain_of topic with
  | None => inl IndexError
  | Some domain =>
      inr ("import com.interfaces.aegis.test.topics." ++ domain ++ "."
           ++ class_name_of topic ++ ";")
  end.

Fixpoint java_imports (l : list Topic.t) : error + list string :=
  match l with
  | [] => inr []
  | topic :: l' =>
      match java_import topic with
      | inl e => inl e
      | inr line =>
          match java_imports l' with
          | inl e => inl e
          | inr lines => inr (line :: lines)
          end
      end
  end.

(** The lines the registry declares for one topic. *)
Definition java_registry_entry (topic : Topic.t) : list string :=
  let class_name := class_name_of topic in
  let const_name := join "_" (split "-" (upper (Topic.name topic))) in
  let producers := join ", " (Topic.produced_by topic) in
  let consumers := join ", " (Topic.consumed_by topic) in
  ["    /**";
       ("     * Event topic: " ++ Topic.name topic);
       "     * ";
       ("     * <p><strong>Producers:</strong> " ++ producers ++ "</p>");
       ("     * <p><strong>Consumers:</strong> " ++ consumers ++ "</p>");
       ("     * <p><strong>Payload:</strong> {" ++ "@code " ++ Topic.event_schema topic ++ "}</p>");
       "     */";
       ("    public static final Destination " ++ const_name ++ " = new " ++ class_name ++ "();");
       EmptyString].

Definition java_registry_domain_header (domain : string) : list string :=
  ["    // ────────────────────────────────────────────────────────────────";
       ("    // " ++ upper domain ++ " DOMAIN");
       "    // ────────────────────────────────────────────────────────────────";
       EmptyString].

(** The loop [for domain in sorted(self.domains.keys())];
    [self.domains[domain]] raises [KeyError] on a missing key. *)
Fixpoint java_registry_sections (domains : dict (list Topic.t))
    (keys : list string) : error + list string :=
  match keys with
  | [] => inr []
  | domain :: keys' =>
      match dict_get domain domains with
      | None => inl (KeyError domain)
      | Some bucket =>
          match java_registry_sections domains keys' with
          | inl e => inl e
          | inr rest =>
              inr (List.concat
                     [java_registry_domain_header domain;
                      List.concat (List.map java_registry_entry bucket);
                      rest])
          end
      end
  end.

Definition java_registry_text (topics : list Topic.t)
    (domains : dict (list Topic.t)) : error + string :=
  match java_imports topics with
  | inl e => inl e
  | inr imports =>
      match java_registry_sections domains (sorted id (dict_keys domains)) with
      | inl e => inl e
      | inr sections =>
          let output :=
            List.concat
              [["package com.interfaces.aegis.test.messaging;";
       EmptyString];
               sorted id imports;
               [EmptyString;
       "/**";
       " * Central registry of all Pub/Sub destinations in Aegis Test.";
       " * ";
       " * <p>This class serves as the single entry point for accessing";
       " * topic and subscription information. All messaging code should";
       " * reference destinations through this class, never using string";
       " * literals directly.</p>";
       " * ";
       " * <p><strong>Design Principles:</strong></p>";
       " * <ul>";
       " *   <li>NO string literals for topics or subscriptions in application code</li>";
       " *   <li>Type-safe access to all messaging destinations</li>";
       " *   <li>Single source of truth for Pub/Sub topology</li>";
       " *   <li>Immutable and thread-safe</li>";
       " * </ul>";
       " */";
       "public final class Topics {";
       "    ";
       "    private Topics() {";
       ("        throw new AssertionError(" ++ dq ++ "Topics class should not be instantiated" ++ dq ++ ");");
       "    }";
       "    "];
               sections;
               ["}"]] in
          inr (join nl output ++ nl)
      end
  end.

Definition java_registry_path : path :=
  (java_package_dir ++ ["messaging"; "Topics.java"])%list.

Definition _generate_java_topics_registry : M unit :=
  g <- get ;;
  match java_registry_text (topics g) (domains g) with
  | inl e => raise e
  | inr text => perform (WriteFile java_registry_path (Text text))
  end.

Definition generate_java_wrappers : M unit :=
  g <- get ;;
  for_each (topics g) generate_java_wrappers_topic ;;
  _generate_java_topics_registry.

(** ** The Python target *)

Definition python_messaging_dir : path :=
  ["wrappers"; "python"; "aegis_interfaces"; "messaging"].

(** The member line of a topic in the [EventType] enumeration. *)
Definition event_type_member (topic : Topic.t) : string :=
  upper (Topic.event_schema topic) ++ " = " ++ dq ++ Topic.topic topic ++ dq.

Definition event_type_members (topics : list Topic.t) : list string :=
  List.map event_type_member (sorted Topic.event_schema topics).

Definition python_destination_head : string :=
  join nl
    [tq;
     "Destination abstraction for Pub/Sub messaging.";
     EmptyString;
     "A Destination represents a complete messaging endpoint including:";
     "- Topic name (where messages are published)";
     "- Subscription mappings (where messages are consumed from)";
     "- Semantic metadata (name, schema, event type)";
     EmptyString;
     "All destinations are immutable and thread-safe.";
     tq;
     EmptyString;
     "from dataclasses import dataclass";
     "from enum import Enum";
     "from typing import Dict, Optional";
     EmptyString;
     EmptyString;
     "class EventType(Enum):";
     ("    " ++ tq ++ "Type of event carried by a messaging destination." ++ tq);
     "    ";
     "    # Events from domain topics";
     "    "].

Definition python_destination_tail : string :=
  join nl
    [EmptyString;
     EmptyString;
     EmptyString;
     "@dataclass(frozen=True)";
     "class Destination:";
     ("    " ++ tq);
     "    Immutable representation of an event-driven Pub/Sub messaging destination.";
     "    ";
     "    Attributes:";
     ("        name: Semantic name in kebab-case (e.g., " ++ dq ++ "specification-created" ++ dq ++ ")");
     ("        topic: Full Pub/Sub topic name (e.g., " ++ dq ++ "aegis-test.specification.created" ++ dq ++ ")");
     "        subscriptions: Mapping of consumer name to subscription name";
     "        event_type: Type of event";
     ("        schema: Schema identifier (e.g., " ++ dq ++ "SpecificationCreatedEventV1" ++ dq ++ ")");
     "        default_consumer: Optional default consumer for single-consumer topics";
     ("    " ++ tq);
     "    ";
     "    name: str";
     "    topic: str";
     "    subscriptions: Dict[str, str]";
     "    event_type: EventType";
     "    schema: str";
     "    default_consumer: Optional[str] = None";
     "    ";
     "    def get_subscription(self, consumer: str) -> str:";
     ("        " ++ tq);
     "        Get the subscription name for a specific consumer.";
     "        ";
     "        Args:";
     "            consumer: Name of the consuming service";
     "            ";
     "        Returns:";
     "            Full subscription name";
     "            ";
     "        Raises:";
     "            KeyError: If the consumer is not registered for this topic";
     ("        " ++ tq);
     "        if consumer not in self.subscriptions:";
     "            raise KeyError(";
     ("                f" ++ dq ++ "Unknown consumer '{consumer}' for topic '{self.name}'. " ++ dq);
     ("                f" ++ dq ++ "Valid consumers: {list(self.subscriptions.keys())}" ++ dq);
     "            )";
     "        return self.subscriptions[consumer]";
     "    ";
     "    @property";
     "    def subscription(self) -> str:";
     ("        " ++ tq);
     "        Get the default subscription name.";
     "        ";
     "        Returns:";
     "            Default subscription name";
     "            ";
     "        Raises:";
     "            ValueError: If there's no default consumer";
     ("        " ++ tq);
     "        if self.default_consumer is None:";
     "            raise ValueError(";
     ("                f" ++ dq ++ "Topic '{self.name}' has multiple consumers and no default. " ++ dq);
     ("                f" ++ dq ++ "Available consumers: {list(self.subscriptions.keys())}. " ++ dq);
     ("                f" ++ dq ++ "Use get_subscription(consumer) instead." ++ dq);
     "            )";
     "        return self.get_subscription(self.default_consumer)";
     "    ";
     "    def __str__(self) -> str:";
     "        return (";
     ("            f" ++ dq ++ "Destination(name='{self.name}', " ++ dq);
     ("            f" ++ dq ++ "topic='{self.topic}', " ++ dq);
     ("            f" ++ dq ++ "schema='{self.schema}')" ++ dq);
     "        )";
     EmptyString].

Definition python_destination_code (topics : list Topic.t) : string :=
  let event_types := join (nl ++ "    ") (event_type_members topics) in
  python_destination_head ++ event_types ++ python_destination_tail.

Definition python_destination_path : path :=
  List.app python_messaging_dir ["destination.py"].

Definition _generate_python_destination : M unit :=
  g <- get ;;
  perform (WriteFile python_destination_path
                     (Text (python_destination_code (topics g)))).

(** [s.rstrip(chars)] *)
Fixpoint rstrip (chars : list ascii) (s : string) : string :=
  match s with
  | EmptyString => EmptyString
  | String c s' =>
      match rstrip chars s' with
      | EmptyString =>
          if existsb (Ascii.eqb c) chars then EmptyString
          else String c EmptyString
      | rest => String c rest
      end
  end.

Definition python_topics_head : string :=
  join nl
    [tq;
     "Central registry of all Pub/Sub destinations in Aegis Test.";
     EmptyString;
     "This module serves as the single entry point for accessing topic and";
     "subscription information. All messaging code should reference destinations";
     "through this module, never using string literals directly.";
     EmptyString;
     "Design Principles:";
     "    - NO string literals for topics or subscriptions in application code";
     "    - Type-safe access to all messaging destinations";
     "    - Single source of truth for Pub/Sub topology";
     "    - Immutable and thread-safe";
     tq;
     EmptyString;
     "from aegis_interfaces.messaging.destination import Destination, EventType";
     EmptyString;
     EmptyString;
     "class Topics:";
     ("    " ++ tq ++ "Central registry of all Pub/Sub messaging destinations." ++ tq);
     "    ";
     EmptyString].

Definition python_topics_tail : string :=
  join nl
    ["    def __init__(self) -> None:";
     ("        " ++ tq ++ "Private constructor - this class should not be instantiated." ++ tq);
     ("        raise TypeError(" ++ dq ++ "Topics class should not be instantiated" ++ dq ++ ")");
     EmptyString].

Definition python_registry_domain_header (domain : string) : string :=
  "    # ────────────────────────────────────────────────────────────────" ++ nl
  ++ "    # "
      ++ upper domain
      ++ " DOMAIN" ++ nl
  ++ "    # ────────────────────────────────────────────────────────────────" ++ nl ++ nl.

(** The text the registry binds one topic with. *)
Definition python_registry_entry (topic : Topic.t) : string :=
  let const_name := join "_" (split "-" (upper (Topic.name topic))) in
  let default_consumer := Topic.get_default_consumer topic in
  let subscriptions :=
    rstrip ["," ; ascii_of_nat 10]%char
      (fold_left
         (fun text item =>
            text ++ "            " ++ dq ++ fst item ++ dq ++ ": " ++ dq
            ++ snd item ++ dq ++ "," ++ nl)
         (Topic.subscriptions topic) ("{" ++ nl))
    ++ nl ++ "        }" in
  let default_consumer_str :=
    if truthy default_consumer then dq ++ str_of default_consumer ++ dq
    else "None" in
  "    "
      ++ const_name
      ++ " = Destination(" ++ nl ++ "        name=" ++ dq
      ++ Topic.name topic
      ++ dq ++ "," ++ nl ++ "        topic=" ++ dq
      ++ Topic.topic topic
      ++ dq ++ "," ++ nl ++ "        subscriptions="
      ++ subscriptions
      ++ "," ++ nl ++ "        event_type=EventType."
      ++ upper (Topic.event_schema topic)
      ++ "," ++ nl ++ "        schema=" ++ dq
      ++ Topic.event_schema topic
      ++ dq ++ "," ++ nl ++ "        default_consumer="
      ++ default_consumer_str
      ++ "," ++ nl ++ "    )" ++ nl ++ "    " ++ tq ++ "Event: "
      ++ Topic.name topic
      ++ tq ++ nl ++ "    " ++ nl.

(** The loop [for domain in sorted(self.domains.keys())] of
    [_generate_python_topics], appending to [topics_content]. *)
Fixpoint python_registry_sections (domains : dict (list Topic.t))
    (keys : list string) (topics_content : string) : error + string :=
  match keys with
  | [] => inr topics_content
  | domain :: keys' =>
      match dict_get domain domains with
      | None => inl (KeyError domain)
      | Some bucket =>
          python_registry_sections domains keys'
            (fold_left (fun text topic => text ++ python_registry_entry topic)
                       bucket
                       (topics_content ++ python_registry_domain_header domain))
      end
  end.

Definition python_topics_code (domains : dict (list Topic.t))
    : error + string :=
  match python_registry_sections domains (sorted id (dict_keys domains))
                                 python_topics_head with
  | inl e => inl e
  | inr topics_content => inr (topics_content ++ python_topics_tail)
  end.

Definition python_topics_path : path :=
  List.app python_messaging_dir ["topics.py"].

Definition _generate_python_topics : M unit :=
  g <- get ;;
  match python_topics_code (domains g) with
  | inl e => raise e
  | inr text => perform (WriteFile python_topics_path (Text text))
  end.

Definition generate_python_wrappers : M unit :=
  _generate_python_destination ;;
  _generate_python_topics.

(** ** The run *)

(** The body of the [try] in [run]. *)
Definition pipeline (repo : Repo) : M unit :=
  load_events repo ;;
  load_topics repo ;;
  validate ;;
  generate_asyncapi ;;
  generate_java_wrappers ;;
  generate_python_wrappers.

(** What a run leaves behind: the file-system operations it performed, in
    order, and its exit status ([None]: the run completed; [Some e]: the
    handler printed [message e] and exited with status 1). *)
Record outcome : Type := mkOutcome {
  performed : list fs_op;
  failure : option error
}.

Definition run_from (g0 : Generator) (repo : Repo) : outcome :=
  match pipeline repo g0 with
  | (g, inr _) => mkOutcome (fs_log g) None
  | (g, inl e) => mkOutcome (fs_log g) (Some e)
  end.

Definition run (repo : Repo) : outcome := run_from init repo.

(** A state of the generator after the two loading stages. *)
Definition loaded (repo : Repo) : Generator * (error + unit) :=
  (load_events repo ;; load_topics repo) init.

(** ** The Python wrapper: [destination.py] and [topics.py] *)

Module Destination.
Record t : Type := mk {
  name : string;
  topic : string;
  subscriptions : dict string;
  event_type : string;
  schema : string;
  default_consumer : option string
}.

(** The two exceptions of the class, with what their messages print. *)
Inductive exn : Type :=
| KeyError (consumer topic_name : string) (valid_consumers : list string)
| ValueError (topic_name : string) (available_consumers : list string).

Definition get_subscription (self : t) (consumer : string) : exn + string :=
  match dict_get consumer (subscriptions self) with
  | None =>
      inl (KeyError consumer (name self) (dict_keys (subscriptions self)))
  | Some subscription => inr subscription
  end.

Definition subscription (self : t) : exn + string :=
  match default_consumer self with
  | None => inl (ValueError (name self) (dict_keys (subscriptions self)))
  | Some consumer => get_subscription self consumer
  end.
End Destination.

(** The shipped registry. *)
Module Topics.
Definition SPECIFICATION_CREATED : Destination.t :=
  {| Destination.name := "specification-created";
     Destination.topic := "aegis-test.specification.created";
     Destination.subscriptions :=
       [("analytics", "analytics.aegis-test.specification.created");
        ("notifications", "notifications.aegis-test.specification.created")];
     Destination.event_type := "SPECIFICATIONCREATEDEVENTV1";
     Destination.schema := "SpecificationCreatedEventV1";
     Destination.default_consumer := None |}.

Definition SPECIFICATION_REQUESTED : Destination.t :=
  {| Destination.name := "specification-requested";
     Destination.topic := "aegis-test.specification.requested";
     Destination.subscriptions :=
       [("orchestrator", "orchestrator.aegis-test.specification.requested")];
     Destination.event_type := "SPECIFICATIONREQUESTEDEVENTV1";
     Destination.schema := "SpecificationRequestedEventV1";
     Destination.default_consumer := Some "orchestrator" |}.
End Topics.

(** The [Destination] that the registry entry emitted for a topic
    constructs: the arguments of the call that [python_registry_entry]
    prints, the string literals read as the strings they were printed
    from. *)
Definition destination_of (topic : Topic.t) : Destination.t :=
  let default_consumer := Topic.get_default_consumer topic in
  {| Destination.name := Topic.name topic;
     Destination.topic := Topic.topic topic;
     Destination.subscriptions := Topic.subscriptions topic;
     Destination.event_type := upper (Topic.event_schema topic);
     Destination.schema := Topic.event_schema topic;
     Destination.default_consumer :=
       if truthy default_consumer then default_consumer else None |}.

(** The source text of a registry binding [const_name = Destination(...)],
    printed the way the registry template prints it. *)
Definition destination_source (const_name : string) (d : Destination.t)
    : string :=
  "    " ++ const_name ++ " = Destination(" ++ nl
  ++ "        name=" ++ dq ++ Destination.name d ++ dq ++ "," ++ nl
  ++ "        topic=" ++ dq ++ Destination.topic d ++ dq ++ "," ++ nl
  ++ "        subscriptions="
  ++ (rstrip ["," ; ascii_of_nat 10]%char
        (fold_left
           (fun text item =>
              text ++ "            " ++ dq ++ fst item ++ dq ++ ": " ++ dq
              ++ snd item ++ dq ++ "," ++ nl)
           (Destination.subscriptions d) ("{" ++ nl))
      ++ nl ++ "        }")
  ++ "," ++ nl
  ++ "        event_type=EventType." ++ Destination.event_type d ++ "," ++ nl
  ++ "        schema=" ++ dq ++ Destination.schema d ++ dq ++ "," ++ nl
  ++ "        default_consumer="
  ++ match Destination.default_consumer d with
     | Some c => dq ++ c ++ dq
     | None => "None"
     end
  ++ "," ++ nl ++ "    )" ++ nl
  ++ "    " ++ tq ++ "Event: " ++ Destination.name d ++ tq ++ nl
  ++ "    " ++ nl.

(** ** The Java wrapper: the class that [_generate_java_class] emits *)

Module JavaDestination.
(** The constants of an emitted class; [DEFAULT_CONSUMER] is declared, and
    [getSubscription()] delegates to it, in the classes emitted with a
    default consumer.  [SUBSCRIPTIONS] is built with [Map.of], a map that
    has no order of its own: the field lists its pairs in the order in
    which the running JVM iterates it, which is the order [keySet()]
    prints and need not be the order of the source. *)
Record t : Type := mk {
  NAME : string;
  TOPIC : string;
  SCHEMA : string;
  DEFAULT_CONSUMER : option string;
  SUBSCRIPTIONS : dict string
}.

Inductive exn : Type :=
| IllegalArgumentException (consumer topic_name : string)
                           (valid_consumers : list string)
| UnsupportedOperationException (topic_name : string)
                                (available_consumers : list string).

(** [getSubscription(String consumer)] *)
Definition getSubscription (self : t) (consumer : string) : exn + string :=
  match dict_get consumer (SUBSCRIPTIONS self) with
  | None =>
      inl (IllegalArgumentException consumer (NAME self)
                                    (dict_keys (SUBSCRIPTIONS self)))
  | Some subscription => inr subscription
  end.

(** [getSubscription()] *)
Definition getSubscription0 (self : t) : exn + string :=
  match DEFAULT_CONSUMER self with
  | Some consumer => getSubscription self consumer
  | None =>
      inl (UnsupportedOperationException (NAME self)
                                         (dict_keys (SUBSCRIPTIONS self)))
  end.
End JavaDestination.

Definition java_destination_of (topic : Topic.t) : JavaDestination.t :=
  let default_consumer := Topic.get_default_consumer topic in
  {| JavaDestination.NAME := Topic.name topic;
     JavaDestination.TOPIC := Topic.topic topic;
     JavaDestination.SCHEMA := Topic.event_schema topic;
     JavaDestination.DEFAULT_CONSUMER :=
       if truthy default_consumer then default_consumer else None;
     JavaDestination.SUBSCRIPTIONS := Topic.subscriptions topic |}.

(** The instances the class emitted for a topic may be at run time: the
    constants printed by [_generate_java_class], and a map of the topic's
    subscriptions that the JVM iterates in some order.  [Map.of] takes at
    most ten pairs, so the class of a topic with more subscriptions does
    not compile and has no instance.  ([java_destination_of] is the
    instance whose map iterates in the order of the source.) *)
Definition java_class_of (topic : Topic.t) (j : JavaDestination.t) : Prop :=
  (List.length (Topic.subscriptions topic) <= 10)%nat
  /\ JavaDestination.NAME j = Topic.name topic
  /\ JavaDestination.TOPIC j = Topic.topic topic
  /\ JavaDestination.SCHEMA j = Topic.event_schema topic
  /\ JavaDestination.DEFAULT_CONSUMER j
     = (if truthy (Topic.get_default_consumer topic)
        then Topic.get_default_consumer topic else None)
  /\ Permutation (JavaDestination.SUBSCRIPTIONS j)
                 (Topic.subscriptions topic).

(** ** The naming transforms, as the specification words them *)

(** Upper case, hyphens turned into underscores. *)
Definition constant_form (semantic_name : string) : string :=
  PyStr.map (fun c => if Ascii.eqb c "-" then "_"%char else upper_char c)
            semantic_name.

(** PascalCase: the hyphens go, the letter that starts a word is upper-cased
    and the other letters are lower-cased. *)
Fixpoint pascal_from (word_start : bool) (s : string) : string :=
  match s with
  | EmptyString => EmptyString
  | String c s' =>
      if Ascii.eqb c "-" then pascal_from true s'
      else String (if word_start then upper_char c else lower_char c)
                  (pascal_from false s')
  end.

Definition pascal_form : string -> string := pascal_from true.

(** ** Predicates used in the statements *)

(** A topic passes the two checks of [validate]. *)
Definition passes (events : dict Event.t) (topic : Topic.t) : bool :=
  dict_mem (Topic.event_schema topic) events
  && String.eqb (Topic.event_type topic) "event".

(** The exception [validate] raises on a topic that does not pass. *)
Definition violation (events : dict Event.t) (topic : Topic.t) : error :=
  if dict_mem (Topic.event_schema topic) events
  then InvalidType (Topic.name topic) (Topic.event_type topic)
  else UnknownEventSchema (Topic.name topic) (Topic.event_schema topic).

(** Two enumerations of one directory: the same entries, whose names are
    distinct, in any two orders (or the directory is absent). *)
Definition same_directory {A : Type} (d1 d2 : option (list (string * A)))
    : Prop :=
  match d1, d2 with
  | None, None => True
  | Some l1, Some l2 => Permutation l1 l2 /\ NoDup (List.map fst l1)
  | _, _ => False
  end.

(** The order of [sorted]: keys do not decrease. *)
Definition key_le {A : Type} (key : A -> string) (x y : A) : Prop :=
  String.leb (key x) (key y) = true.

(** The files a log writes under a directory. *)
Fixpoint is_prefix (dir file : path) : bool :=
  match dir, file with
  | [], _ => true
  | d :: dir', f :: file' => String.eqb d f && is_prefix dir' file'
  | _ :: _, [] => false
  end.

Definition writes_under (dir : path) (log : list fs_op) : list path :=
  flat_map (fun op => match op with
                      | WriteFile file _ => if is_prefix dir file then [file] else []
                      | Mkdir _ => []
                      end) log.

(** What [generate_java_wrappers] does for a topic that has a domain: it
    makes the domain's directory and writes the class file there. *)
Definition java_topic_ops (topic : Topic.t) : list fs_op :=
  match domain_of topic with
  | Some domain =>
      let domain_dir := List.app java_package_dir ["topics"; domain] in
      let class_name := class_name_of topic in
      [Mkdir domain_dir;
       WriteFile (List.app domain_dir [class_name ++ ".java"])
                 (Text (join nl (java_class_output topic class_name domain)
                        ++ nl))]
  | None => []
  end.

(** The collections of the interface document after the loop of
    [generate_asyncapi] has gone through the topics [seen]. *)
Record collected (events : dict Event.t) (seen : list Topic.t)
    (c : collections) : Prop := {
  channels_nodup : NoDup (dict_keys (channels c));
  messages_nodup : NoDup (dict_keys (messages c));
  schemas_nodup : NoDup (dict_keys (schemas c));
  channels_keys :
    forall k, In k (dict_keys (channels c)) <-> In k (List.map Topic.name seen);
  messages_keys :
    forall k, In k (dict_keys (messages c))
              <-> In k (List.map Topic.event_schema seen);
  schemas_keys :
    forall k, In k (dict_keys (schemas c))
              <-> In k (List.map Topic.event_schema seen);
  shared_entries :
    forall t, In t seen ->
      exists e,
        dict_get (Topic.event_schema t) events = Some e
        /\ dict_get (Topic.event_schema t) (schemas c)
           = Some (VDict (Event.schema e))
        /\ dict_get (Topic.event_schema t) (messages c)
           = Some (message_entry t e);
  channel_entries :
    forall t, In t seen ->
      exists t', In t' seen /\ Topic.name t' = Topic.name t
                 /\ dict_get (Topic.name t) (channels c)
                    = Some (channel_entry t');
  channel_of_unique_name :
    forall t, In t seen ->
      (forall t', In t' seen -> Topic.name t' = Topic.name t -> t' = t) ->
      dict_get (Topic.name t) (channels c) = Some (channel_entry t)
}.

(** The generator after more file-system operations. *)
Definition logged_all (g : Generator) (ops : list fs_op) : Generator :=
  {| events := events g; topics := topics g; domains := domains g;
     fs_log := (fs_log g ++ ops)%list |}.

Definition logged (g : Generator) (op : fs_op) : Generator :=
  logged_all g [op].

(** ** Sample inputs *)

Module Sample.

(** The topology of the shipped registry: two schema files and two topic
    files, enumerated in an arbitrary order. *)
Definition created_schema : dict value :=
  [("title", VStr "SpecificationCreatedEventV1");
   ("type", VStr "object")].

Definition requested_schema : dict value :=
  [("title", VStr "SpecificationRequestedEventV1");
   ("type", VStr "object")].

Definition created_def : TopicDef.t :=
  {| TopicDef.name := Some "specification-created";
     TopicDef.topic := Some "aegis-test.specification.created";
     TopicDef.description := Some "A specification was created";
     TopicDef.producedBy := Some ["orchestrator"];
     TopicDef.consumedBy := Some ["analytics"; "notifications"];
     TopicDef.subscriptions :=
       Some [("analytics", "analytics.aegis-test.specification.created");
             ("notifications",
              "notifications.aegis-test.specification.created")];
     TopicDef.payload :=
       Some (TopicDef.mk_payload (Some "SpecificationCreatedEventV1") None) |}.

Definition requested_def : TopicDef.t :=
  {| TopicDef.name := Some "specification-requested";
     TopicDef.topic := Some "aegis-test.specification.requested";
     TopicDef.description := Some "A specification was requested";
     TopicDef.producedBy := Some ["portal"];
     TopicDef.consumedBy := Some ["orchestrator"];
     TopicDef.subscriptions :=
       Some [("orchestrator",
              "orchestrator.aegis-test.specification.requested")];
     TopicDef.payload :=
       Some (TopicDef.mk_payload (Some "SpecificationRequestedEventV1")
                                 (Some "event")) |}.

Definition repo : Repo :=
  {| events_dir :=
       Some [("specification-requested.v1.json", requested_schema);
             ("specification-created.v1.json", created_schema)];
     topics_dir :=
       Some [("specification-requested.yaml", requested_def);
             ("specification-created.yaml", created_def)] |}.

(** The same directories, enumerated in another order. *)
Definition repo_reordered : Repo :=
  {| events_dir :=
       Some [("specification-created.v1.json", created_schema);
             ("specification-requested.v1.json", requested_schema)];
     topics_dir :=
       Some [("specification-created.yaml", created_def);
             ("specification-requested.yaml", requested_def)] |}.

Definition created : Topic.t := topic_of_def created_def.
Definition requested : Topic.t := topic_of_def requested_def.

(** A second topic on the event of [created]. *)
Definition archived : Topic.t :=
  {| Topic.name := "specification-archived";
     Topic.topic := "aegis-test.specification.archived";
     Topic.description := "";
     Topic.produced_by := ["orchestrator"];
     Topic.consumed_by := ["analytics"];
     Topic.subscriptions :=
       [("analytics", "analytics.aegis-test.specification.archived")];
     Topic.event_schema := "SpecificationCreatedEventV1";
     Topic.event_type := "event" |}.

(** A generator that has loaded two topics sharing one event. *)
Definition shared_event : Generator :=
  {| events :=
       [("SpecificationCreatedEventV1",
         event_of_file ("specification-created.v1.json", created_schema))];
     topics := [created; archived];
     domains := [("specification", [created; archived])];
     fs_log := [] |}.

(** A topic whose declared consumers and subscriptions differ. *)
Definition half_subscribed : Topic.t :=
  {| Topic.name := "specification-created";
     Topic.topic := "aegis-test.specification.created";
     Topic.description := "";
     Topic.produced_by := ["orchestrator"];
     Topic.consumed_by := ["analytics"; "notifications"];
     Topic.subscriptions :=
       [("analytics", "analytics.aegis-test.specification.created")];
     Topic.event_schema := "SpecificationCreatedEventV1";
     Topic.event_type := "event" |}.

(** A topic whose only consumer is the empty string. *)
Definition unnamed_consumer : Topic.t :=
  {| Topic.name := "specification-requested";
     Topic.topic := "aegis-test.specification.requested";
     Topic.description := "";
     Topic.produced_by := ["portal"];
     Topic.consumed_by := [""];
     Topic.subscriptions :=
       [("", "orchestrator.aegis-test.specification.requested")];
     Topic.event_schema := "SpecificationRequestedEventV1";
     Topic.event_type := "event" |}.

(** A command-typed topic on a known event, listed before a topic whose
    reference does not resolve. *)
Definition command_def : TopicDef.t :=
  {| TopicDef.name := Some "specification-cancel";
     TopicDef.topic := Some "aegis-test.specification.cancel";
     TopicDef.description := None;
     TopicDef.producedBy := Some ["portal"];
     TopicDef.consumedBy := Some ["orchestrator"];
     TopicDef.subscriptions :=
       Some [("orchestrator", "orchestrator.aegis-test.specification.cancel")];
     TopicDef.payload :=
       Some (TopicDef.mk_payload (Some "SpecificationCreatedEventV1")
                                 (Some "command")) |}.

Definition dangling_def : TopicDef.t :=
  {| TopicDef.name := Some "specification-deleted";
     TopicDef.topic := Some "aegis-test.specification.deleted";
     TopicDef.description := None;
     TopicDef.producedBy := Some ["portal"];
     TopicDef.consumedBy := Some ["orchestrator"];
     TopicDef.subscriptions :=
       Some [("orchestrator", "orchestrator.aegis-test.specification.deleted")];
     TopicDef.payload :=
       Some (TopicDef.mk_payload (Some "SpecificationDeletedEventV1") None) |}.

Definition repo_command_then_dangling : Repo :=
  {| events_dir := Some [("specification-created.v1.json", created_schema)];
     topics_dir :=
       Some [("a-cancel.yaml", command_def); ("b-deleted.yaml", dangling_def)] |}.

(** A command-typed topic whose reference does not resolve either. *)
Definition dangling_command_def : TopicDef.t :=
  {| TopicDef.name := Some "specification-cancel";
     TopicDef.topic := Some "aegis-test.specification.cancel";
     TopicDef.description := None;
     TopicDef.producedBy := Some ["portal"];
     TopicDef.consumedBy := Some ["orchestrator"];
     TopicDef.subscriptions :=
       Some [("orchestrator", "orchestrator.aegis-test.specification.cancel")];
     TopicDef.payload :=
       Some (TopicDef.mk_payload (Some "SpecificationCancelCommandV1")
                                 (Some "command")) |}.

Definition repo_dangling_command : Repo :=
  {| events_dir := Some [("specification-created.v1.json", created_schema)];
     topics_dir := Some [("a-cancel.yaml", dangling_command_def)] |}.

End Sample.

(** The three emitting stages of [run], after validation. *)
Definition generation : M unit :=
  generate_asyncapi ;; generate_java_wrappers ;; generate_python_wrappers.

(** Every topic has a second dot-separated segment. *)
Definition domains_defined (l : list Topic.t) : Prop :=
  forall t, In t l -> exists domain, domain_of t = Some domain.

(** The loop of [load_events] on the events mapping: each file stores its
    event under the event's schema name. *)
Definition store_event (events : dict Event.t) (json_file : string * dict value)
    : dict Event.t :=
  dict_set (Event.schema_name (event_of_file json_file))
           (event_of_file json_file) events.

(** Where the class file of a topic goes. *)
Definition java_topics_dir : path := List.app java_package_dir ["topics"].

Definition java_class_path (topic : Topic.t) : path :=
  List.app java_topics_dir
           [get_or (domain_of topic) ""; class_name_of topic ++ ".java"].

Definition python_root : path := ["wrappers"; "python"].

(** An operation that touches an output of the generator only: the
    interface document or something under the wrappers directory (the
    inputs are under events and topics). *)
Definition on_output (op : fs_op) : bool :=
  let target := match op with
                | Mkdir dir => dir
                | WriteFile file _ => file
                end in
  is_prefix ["wrappers"] target || is_prefix asyncapi_path target.

(** ** Further notions used in the statements about loading *)

(** The first of the six required fields that a topic document lacks, in
    the order of [required_fields]. *)
Definition first_missing (d : TopicDef.t) : option string :=
  match TopicDef.name d with
  | None => Some "name"
  | Some _ =>
  match TopicDef.topic d with
  | None => Some "topic"
  | Some _ =>
  match TopicDef.producedBy d with
  | None => Some "producedBy"
  | Some _ =>
  match TopicDef.consumedBy d with
  | None => Some "consumedBy"
  | Some _ =>
  match TopicDef.subscriptions d with
  | None => Some "subscriptions"
  | Some _ =>
  match TopicDef.payload d with
  | None => Some "payload"
  | Some _ => None
  end end end end end end.

(** The exception a topic file makes [load_topics] raise, if any: a missing
    field, or a wire-level topic string with no second segment. *)
Definition topic_file_error (yaml_file : string * TopicDef.t)
    : option error :=
  match first_missing (snd yaml_file) with
  | Some field => Some (MissingField (fst yaml_file) field)
  | None =>
      match domain_of (topic_of_def (snd yaml_file)) with
      | None => Some IndexError
      | Some _ => None
      end
  end.

(** The domain buckets after one more topic: the topic goes to the end of
    the bucket of its domain, a new bucket going to the end of the
    buckets. *)
Definition bucket_topic (domains : dict (list Topic.t)) (topic : Topic.t)
    : dict (list Topic.t) :=
  match domain_of topic with
  | Some domain =>
      dict_set domain
               (List.app (get_or (dict_get domain domains) []) [topic])
               domains
  | None => domains
  end.

(** The generator after one more topic was appended and bucketed. *)
Definition with_topic (g : Generator) (topic : Topic.t) : Generator :=
  {| events := events g;
     topics := List.app (topics g) [topic];
     domains := bucket_topic (domains g) topic;
     fs_log := fs_log g |}.

(** The topic belongs to the domain [k]. *)
Definition has_domain (k : string) (topic : Topic.t) : bool :=
  match domain_of topic with
  | Some domain => String.eqb domain k
  | None => false
  end.

(** The files a log writes, in order. *)
Definition written (log : list fs_op) : list path :=
  flat_map (fun op => match op with
                      | WriteFile file _ => [file]
                      | Mkdir _ => []
                      end) log.

(** A kebab-case name: lower-case letters, digits and hyphens. *)
Definition is_digit (c : ascii) : bool :=
  (48 <=? nat_of_ascii c)%nat && (nat_of_ascii c <=? 57)%nat.

Definition kebab_char (c : ascii) : bool :=
  is_lower c || is_digit c || Ascii.eqb c "-".

Fixpoint kebab (s : string) : bool :=
  match s with
  | EmptyString => true
  | String c s' => kebab_char c && kebab s'
  end.

(** The line of one subscription in the Python registry. *)
Definition python_subscription_line (item : string * string) : string :=
  "            " ++ dq ++ fst item ++ dq ++ ": " ++ dq ++ snd item ++ dq.

(** The [subscriptions] text that [_generate_python_topics] builds for a
    topic. *)
Definition python_subscriptions_text (topic : Topic.t) : string :=
  rstrip ["," ; ascii_of_nat 10]%char
    (fold_left
       (fun text item =>
          text ++ "            " ++ dq ++ fst item ++ dq ++ ": " ++ dq
          ++ snd item ++ dq ++ "," ++ nl)
       (Topic.subscriptions topic) ("{" ++ nl))
  ++ nl ++ "        }".

(** The body of the loop of [load_topics]. *)
Definition load_topic_file (yaml_file : string * TopicDef.t) : M unit :=
  let topic_def := snd yaml_file in
  check_required_fields (fst yaml_file) topic_def ;;
  let topic := topic_of_def topic_def in
  modify (fun g =>
    {| events := events g; topics := (topics g ++ [topic])%list;
       domains := domains g; fs_log := fs_log g |}) ;;
  domain <- or_raise IndexError (domain_of topic) ;;
  modify (fun g =>
    let bucket := get_or (dict_get domain (domains g)) [] in
    {| events := events g; topics := topics g;
       domains := dict_set domain (bucket ++ [topic])%list (domains g);
       fs_log := fs_log g |}).

(** The topics of a list of topic files. *)
Definition topics_of_files (files : list (string * TopicDef.t))
    : list Topic.t :=
  List.map (fun f => topic_of_def (snd f)) files.

(** The first exception among the files of a list. *)
Fixpoint first_topic_error (files : list (string * TopicDef.t))
    : option error :=
  match files with
  | [] => None
  | f :: files' =>
      match topic_file_error f with
      | Some e => Some e
      | None => first_topic_error files'
      end
  end.

(** The sections of a registry: the domains in the order of their names,
    each with its topics in load order. *)
Definition registry_order (g : Generator) : list (string * list Topic.t) :=
  List.map (fun k => (k, filter (has_domain k) (topics g)))
           (sorted id (dict_keys (domains g))).

(** Back from a constant name to a semantic name: lower case, underscores
    turned into hyphens. *)
Definition semantic_form (constant_name : string) : string :=
  PyStr.map (fun c => if Ascii.eqb c "_" then "-"%char else lower_char c)
            constant_name.

(** The keys of a dictionary filled by assignments, in the order of their
    first assignment. *)
Fixpoint first_occurrences (seen : list string) (keys : list string)
    : list string :=
  match keys with
  | [] => []
  | k :: keys' =>
      if existsb (String.eqb k) seen then first_occurrences seen keys'
      else k :: first_occurrences (List.app seen [k]) keys'
  end.
(** * Properties *)

(** ** The string operations on the shipped names *)

Example upper_demo : upper "aegis-Test.v1" = "AEGIS-TEST.V1".
Proof. reflexivity. Qed.

Example split_demo : split "-" "a--b-" = ["a"; ""; "b"; ""].
Proof. reflexivity. Qed.

Example title_demo :
  title (replace "-" " " "specification-created") = "Specification Created".
Proof. reflexivity. Qed.

Example stem_demo :
  stem "specification-created.v1.json" = "specification-created.v1".
Proof. reflexivity. Qed.

Example domain_demo : domain_of Sample.created = Some "specification".
Proof. reflexivity. Qed.

Example python_registry_entry_demo :
  python_registry_entry Sample.requested
  = "    SPECIFICATION_REQUESTED = Destination(" ++ nl
    ++ "        name=" ++ dq ++ "specification-requested" ++ dq ++ "," ++ nl
    ++ "        topic=" ++ dq ++ "aegis-test.specification.requested" ++ dq
    ++ "," ++ nl
    ++ "        subscriptions={" ++ nl
    ++ "            " ++ dq ++ "orchestrator" ++ dq ++ ": " ++ dq
    ++ "orchestrator.aegis-test.specification.requested" ++ dq ++ nl
    ++ "        }," ++ nl
    ++ "        event_type=EventType.SPECIFICATIONREQUESTEDEVENTV1," ++ nl
    ++ "        schema=" ++ dq ++ "SpecificationRequestedEventV1" ++ dq ++ ","
    ++ nl
    ++ "        default_consumer=" ++ dq ++ "orchestrator" ++ dq ++ "," ++ nl
    ++ "    )" ++ nl
    ++ "    " ++ tq ++ "Event: specification-requested" ++ tq ++ nl
    ++ "    " ++ nl.
Proof. reflexivity. Qed.


(** ** Strings *)

Lemma split_nonempty (sep : ascii) (s : string) : split sep s <> [].
Proof.
  destruct s as [|c s']; simpl; [discriminate|].
  destruct (Ascii.eqb c sep); [discriminate|].
  destruct (split sep s'); discriminate.
Qed.

Lemma concat_cons2 (sep x y : string) (l : list string) :
  String.concat sep (x :: y :: l) = x ++ sep ++ String.concat sep (y :: l).
Proof. reflexivity. Qed.

Lemma append_nil_r (s : string) : s ++ "" = s.
Proof. induction s as [|c s IH]; simpl; [reflexivity | now rewrite IH]. Qed.

Lemma append_assoc (a b c : string) : (a ++ b) ++ c = a ++ (b ++ c).
Proof. induction a as [|x a IH]; simpl; [reflexivity | now rewrite IH]. Qed.

Lemma concat_empty_cons (x : string) (l : list string) :
  String.concat "" (x :: l) = x ++ String.concat "" l.
Proof.
  destruct l as [|y l]; simpl; [now rewrite append_nil_r | reflexivity].
Qed.

(** Joining the pieces of a split with a one-character string replaces the
    separator by that character. *)
Lemma join_split (sep r : ascii) (s : string) :
  join (String r "") (split sep s)
  = PyStr.map (fun c => if Ascii.eqb c sep then r else c) s.
Proof.
  unfold join. induction s as [|c s IH]; [reflexivity|].
  simpl. destruct (Ascii.eqb c sep) eqn:E.
  - destruct (split sep s) as [|w ws] eqn:Es.
    + now destruct (split_nonempty sep s).
    + rewrite concat_cons2. simpl. now rewrite <- IH.
  - destruct (split sep s) as [|w ws] eqn:Es.
    + now destruct (split_nonempty sep s).
    + rewrite <- IH. destruct ws; reflexivity.
Qed.

Lemma map_map (f g : ascii -> ascii) (s : string) :
  PyStr.map g (PyStr.map f s) = PyStr.map (fun c => g (f c)) s.
Proof. induction s as [|c s IH]; simpl; [reflexivity | now rewrite IH]. Qed.

Lemma map_ext (f g : ascii -> ascii) (s : string) :
  (forall c, f c = g c) -> PyStr.map f s = PyStr.map g s.
Proof.
  intros H. induction s as [|c s IH]; simpl; [reflexivity | now rewrite H, IH].
Qed.

Lemma upper_char_hyphen (c : ascii) :
  (if Ascii.eqb (upper_char c) "-" then "_"%char else upper_char c)
  = (if Ascii.eqb c "-" then "_"%char else upper_char c).
Proof. destruct c as [[] [] [] [] [] [] [] []]; reflexivity. Qed.

Lemma constant_name_form (semantic_name : string) :
  join "_" (split "-" (upper semantic_name)) = constant_form semantic_name.
Proof.
  rewrite join_split. unfold upper, constant_form. rewrite map_map.
  apply map_ext, upper_char_hyphen.
Qed.

Lemma capitalized_words_pascal (s : string) :
  String.concat "" (List.map capitalize (split "-" s)) = pascal_from true s
  /\ match split "-" s with
     | w :: ws => lower w ++ String.concat "" (List.map capitalize ws)
     | [] => EmptyString
     end = pascal_from false s.
Proof.
  induction s as [|c s [IH1 IH2]]; [split; reflexivity|].
  simpl. destruct (Ascii.eqb c "-") eqn:E.
  - cbn [List.map]. rewrite concat_empty_cons. simpl. now rewrite IH1.
  - destruct (split "-" s) as [|w ws] eqn:Es.
    + now destruct (split_nonempty "-" s).
    + cbn [List.map]. rewrite concat_empty_cons. simpl.
      fold (lower w). rewrite IH2. split; reflexivity.
Qed.

Lemma class_name_form (topic : Topic.t) :
  class_name_of topic = pascal_form (Topic.name topic).
Proof. apply capitalized_words_pascal. Qed.

(** ** Naming transforms *)

Ltac find_line := repeat (first [left; reflexivity | right]).

(** C4. The constant name and the class name of a topic are functions of
    its semantic name alone: the constant name is the upper-case form with
    every hyphen turned into an underscore, the class name is the
    PascalCase form.  The Java class (its reference to the registry
    constant and its class declaration), the Java registry and the Python
    registry all print these names, so the Java constant of a topic is the
    Python constant of that topic.  The name specification-created gives
    SPECIFICATION_CREATED and SpecificationCreated. *)
Theorem naming_transforms_agree (topic : Topic.t) (domain : string) :
  let constant := constant_form (Topic.name topic) in
  let class := pascal_form (Topic.name topic) in
  Topic.get_java_constant_name topic = constant
  /\ class_name_of topic = class
  /\ In (" * @see com.interfaces.aegis.test.messaging.Topics#" ++ constant)
        (java_class_output topic (class_name_of topic) domain)
  /\ In ("public final class " ++ class ++ " implements Destination {")
        (java_class_output topic (class_name_of topic) domain)
  /\ In ("    public static final Destination " ++ constant ++ " = new "
         ++ class ++ "();")
        (java_registry_entry topic)
  /\ (exists rest,
        python_registry_entry topic
        = "    " ++ constant ++ " = Destination(" ++ rest)
  /\ constant_form "specification-created" = "SPECIFICATION_CREATED"
  /\ pascal_form "specification-created" = "SpecificationCreated".
Proof.
  intros constant class. subst constant class.
  repeat split.
  - apply constant_name_form.
  - apply class_name_form.
  - unfold java_class_output. cbv zeta. rewrite constant_name_form.
    cbn [List.concat]. apply in_or_app. left. cbn [In]. find_line.
  - unfold java_class_output. cbv zeta. rewrite class_name_form.
    cbn [List.concat]. apply in_or_app. left. cbn [In]. find_line.
  - unfold java_registry_entry. cbv zeta.
    rewrite constant_name_form, class_name_form. cbn [In]. find_line.
  - unfold python_registry_entry. cbv zeta. rewrite constant_name_form.
    eexists. cbn [append]. rewrite !append_assoc. reflexivity.
Qed.

(** ** Dictionaries *)

Section DictFacts.
Context {V : Type}.
Implicit Types (d : dict V) (k : string) (v : V).

Lemma dict_mem_true k d :
  dict_mem k d = true <-> exists v, dict_get k d = Some v.
Proof.
  unfold dict_mem. destruct (dict_get k d) as [v|]; split.
  - now exists v.
  - reflexivity.
  - discriminate.
  - now intros [v H].
Qed.

Lemma dict_mem_keys k d : dict_mem k d = true <-> In k (dict_keys d).
Proof.
  unfold dict_mem. induction d as [|[k' v'] d IH]; simpl.
  - split; [discriminate | contradiction].
  - destruct (String.eqb_spec k' k) as [->|N].
    + split; auto.
    + rewrite IH. split; [auto | intros [E|H]; [contradiction | exact H]].
Qed.

Lemma dict_mem_false k d : dict_mem k d = false <-> ~ In k (dict_keys d).
Proof.
  rewrite <- dict_mem_keys. destruct (dict_mem k d); split; congruence.
Qed.

Lemma dict_keys_set k v d :
  dict_keys (dict_set k v d)
  = if dict_mem k d then dict_keys d else (dict_keys d ++ [k])%list.
Proof.
  unfold dict_mem. induction d as [|[k' v'] d IH]; simpl; [reflexivity|].
  destruct (String.eqb_spec k' k) as [->|N]; simpl; [reflexivity|].
  rewrite IH. now destruct (dict_get k d).
Qed.

Lemma dict_get_set_same k v d : dict_get k (dict_set k v d) = Some v.
Proof.
  induction d as [|[k' v'] d IH]; simpl.
  - now rewrite String.eqb_refl.
  - destruct (String.eqb_spec k' k) as [->|N]; simpl.
    + now rewrite String.eqb_refl.
    + destruct (String.eqb_spec k' k); [contradiction | exact IH].
Qed.

Lemma dict_get_set_other k k' v d :
  k <> k' -> dict_get k' (dict_set k v d) = dict_get k' d.
Proof.
  intros N. induction d as [|[k0 v0] d IH]; simpl.
  - destruct (String.eqb_spec k k'); [contradiction | reflexivity].
  - destruct (String.eqb_spec k0 k) as [->|N0]; simpl.
    + destruct (String.eqb_spec k k'); [contradiction | reflexivity].
    + now rewrite IH.
Qed.

Lemma dict_keys_set_in k v d k' :
  In k' (dict_keys (dict_set k v d)) <-> k' = k \/ In k' (dict_keys d).
Proof.
  rewrite dict_keys_set. destruct (dict_mem k d) eqn:E.
  - apply dict_mem_keys in E. split; [auto | intros [->|H]; auto].
  - rewrite in_app_iff. simpl. intuition.
Qed.

Lemma dict_keys_set_nodup k v d :
  NoDup (dict_keys d) -> NoDup (dict_keys (dict_set k v d)).
Proof.
  intros H. rewrite dict_keys_set. destruct (dict_mem k d) eqn:E; [exact H|].
  apply dict_mem_false in E.
  apply NoDup_app; [exact H | repeat constructor; auto | ].
  intros x Hx [<-|[]]. contradiction.
Qed.

Lemma dict_get_in_keys k d : In k (dict_keys d) -> exists v, dict_get k d = Some v.
Proof. intros H. now apply dict_mem_true, dict_mem_keys. Qed.

End DictFacts.

(** ** The interface document *)

Lemma message_entry_reference (t t' : Topic.t) (e : Event.t) :
  Topic.event_schema t = Topic.event_schema t' ->
  message_entry t e = message_entry t' e.
Proof. unfold message_entry. now intros ->. Qed.

Lemma collected_nil (events : dict Event.t) :
  collected events [] (mkCollections [] [] []).
Proof.
  constructor; simpl; try constructor; try tauto; contradiction.
Qed.

Lemma in_map_snoc {A B : Type} (f : A -> B) (l : list A) (x : A) (y : B) :
  In y (List.map f (l ++ [x])) <-> y = f x \/ In y (List.map f l).
Proof.
  rewrite List.map_app, in_app_iff. simpl. intuition.
Qed.

Lemma collected_step (events : dict Event.t) (seen : list Topic.t)
    (t : Topic.t) (c c' : collections) :
  collected events seen c ->
  add_topic events t c = inr c' ->
  collected events (seen ++ [t]) c'.
Proof.
  intros I. unfold add_topic.
  destruct (dict_get (Topic.event_schema t) events) as [e|] eqn:Ee;
    [|discriminate].
  intros H. injection H as <-.
  assert (Hseen : forall k, In k (List.map Topic.event_schema seen) ->
                   exists t1, In t1 seen /\ Topic.event_schema t1 = k).
  { intros k Hk. apply in_map_iff in Hk. destruct Hk as [t1 [E1 H1]]. eauto. }
  constructor; cbn [channels messages schemas].
  - apply dict_keys_set_nodup, I.
  - destruct (dict_mem _ (messages c)); [|apply dict_keys_set_nodup]; apply I.
  - destruct (dict_mem _ (schemas c)); [|apply dict_keys_set_nodup]; apply I.
  - intros k. rewrite dict_keys_set_in, in_map_snoc, (channels_keys _ _ _ I).
    tauto.
  - intros k. rewrite in_map_snoc.
    destruct (dict_mem _ (messages c)) eqn:E.
    + apply dict_mem_keys in E. rewrite (messages_keys _ _ _ I) in *.
      split; [auto | intros [->|H]; auto].
    + rewrite dict_keys_set_in, (messages_keys _ _ _ I). tauto.
  - intros k. rewrite in_map_snoc.
    destruct (dict_mem _ (schemas c)) eqn:E.
    + apply dict_mem_keys in E. rewrite (schemas_keys _ _ _ I) in *.
      split; [auto | intros [->|H]; auto].
    + rewrite dict_keys_set_in, (schemas_keys _ _ _ I). tauto.
  - intros t0 H0. apply in_app_iff in H0. destruct H0 as [H0|[<-|[]]].
    + destruct (shared_entries _ _ _ I t0 H0) as [e0 [G0 [S0 M0]]].
      exists e0. split; [exact G0|].
      assert (K : In (Topic.event_schema t0) (List.map Topic.event_schema seen))
        by now apply in_map.
      split.
      * destruct (dict_mem _ (schemas c)) eqn:E; [exact S0|].
        apply dict_mem_false in E. rewrite (schemas_keys _ _ _ I) in E.
        rewrite dict_get_set_other; [exact S0|]. intros X. apply E. now rewrite X.
      * destruct (dict_mem _ (messages c)) eqn:E; [exact M0|].
        apply dict_mem_false in E. rewrite (messages_keys _ _ _ I) in E.
        rewrite dict_get_set_other; [exact M0|]. intros X. apply E. now rewrite X.
    + exists e. split; [exact Ee|]. split.
      * destruct (dict_mem _ (schemas c)) eqn:E; [|apply dict_get_set_same].
        apply dict_mem_keys in E. rewrite (schemas_keys _ _ _ I) in E.
        destruct (Hseen _ E) as [t1 [H1 E1]].
        destruct (shared_entries _ _ _ I t1 H1) as [e1 [G1 [S1 M1]]].
        rewrite E1 in *. congruence.
      * destruct (dict_mem _ (messages c)) eqn:E; [|apply dict_get_set_same].
        apply dict_mem_keys in E. rewrite (messages_keys _ _ _ I) in E.
        destruct (Hseen _ E) as [t1 [H1 E1]].
        destruct (shared_entries _ _ _ I t1 H1) as [e1 [G1 [S1 M1]]].
        rewrite (message_entry_reference t1 t e1 E1) in M1.
        rewrite E1 in *. congruence.
  - intros t0 H0.
    destruct (string_dec (Topic.name t) (Topic.name t0)) as [E|N].
    + exists t. rewrite <- E, dict_get_set_same.
      split; [apply in_app_iff; simpl; auto | auto].
    + apply in_app_iff in H0. destruct H0 as [H0|[X|[]]];
        [|subst; contradiction].
      destruct (channel_entries _ _ _ I t0 H0) as [t' [H' [E' G']]].
      exists t'. rewrite dict_get_set_other by exact N.
      split; [apply in_app_iff; auto | auto].
  - intros t0 H0 U.
    destruct (string_dec (Topic.name t) (Topic.name t0)) as [E|N].
    + assert (t = t0) as <-.
      { apply U; [apply in_app_iff; simpl; auto | exact E]. }
      apply dict_get_set_same.
    + apply in_app_iff in H0. destruct H0 as [H0|[X|[]]];
        [|subst; contradiction].
      rewrite dict_get_set_other by exact N.
      apply (channel_of_unique_name _ _ _ I t0 H0).
      intros t' H' E'. apply U; [apply in_app_iff; auto | exact E'].
Qed.

Lemma collected_add_topics (events : dict Event.t) (l seen : list Topic.t)
    (c c' : collections) :
  collected events seen c ->
  add_topics events l c = inr c' ->
  collected events (seen ++ l) c'.
Proof.
  revert seen c. induction l as [|t l IH]; intros seen c I; simpl.
  - intros H. injection H as <-. now rewrite app_nil_r.
  - destruct (add_topic events t c) as [e|c1] eqn:E1; [discriminate|].
    intros H. replace (seen ++ t :: l)%list with ((seen ++ [t]) ++ l)%list
      by now rewrite <- app_assoc.
    eapply IH; [|exact H]. eapply collected_step; eauto.
Qed.

(** The loop completes when every reference resolves. *)
Lemma add_topics_total (events : dict Event.t) (l : list Topic.t)
    (c : collections) :
  (forall t, In t l -> dict_mem (Topic.event_schema t) events = true) ->
  exists c', add_topics events l c = inr c'.
Proof.
  revert c. induction l as [|t l IH]; intros c H; simpl; [eauto|].
  unfold add_topic.
  destruct (proj1 (dict_mem_true _ _) (H t (or_introl eq_refl))) as [e ->].
  apply IH. intros t' H'. apply H. now right.
Qed.

Lemma count_occ_one (l : list string) (k : string) :
  NoDup l -> In k l -> count_occ string_dec l k = 1.
Proof. intros N. now apply NoDup_count_occ'. Qed.

(** C5. When every topic's reference resolves, [generate_asyncapi] writes
    one document whose channels hold exactly one entry for each topic,
    under the topic's semantic name, and whose messages and schemas hold
    exactly one entry for each distinct event reference: the key lists
    have no repetition and are the topic names, respectively the event
    references, so two topics on one event share a single message entry
    and a single schema entry.  The schema entry is the event's schema
    document itself; the channel entry under a name borne by one topic is
    that topic's, and topics with pairwise distinct names get as many
    channel entries as there are topics. *)
Theorem interface_document_entries (g : Generator) :
  (forall t, In t (topics g) ->
             dict_mem (Topic.event_schema t) (events g) = true) ->
  exists c,
    generate_asyncapi g
    = (logged g (WriteFile asyncapi_path (YamlDump (asyncapi_of c))), inr tt)
    /\ value_at ["channels"] (asyncapi_of c) = Some (VDict (channels c))
    /\ value_at ["components"; "messages"] (asyncapi_of c)
       = Some (VDict (messages c))
    /\ value_at ["components"; "schemas"] (asyncapi_of c)
       = Some (VDict (schemas c))
    /\ collected (events g) (topics g) c
    /\ (forall t, In t (topics g) ->
          count_occ string_dec (dict_keys (channels c)) (Topic.name t) = 1
          /\ count_occ string_dec (dict_keys (messages c))
                       (Topic.event_schema t) = 1
          /\ count_occ string_dec (dict_keys (schemas c))
                       (Topic.event_schema t) = 1)
    /\ (forall t1 t2 e, In t1 (topics g) -> In t2 (topics g) ->
          Topic.event_schema t1 = Topic.event_schema t2 ->
          dict_get (Topic.event_schema t1) (events g) = Some e ->
          dict_get (Topic.event_schema t2) (schemas c)
          = Some (VDict (Event.schema e)))
    /\ (NoDup (List.map Topic.name (topics g)) ->
          List.length (channels c) = List.length (topics g)).
Proof.
  intros R.
  destruct (add_topics_total (events g) (topics g) (mkCollections [] [] []) R)
    as [c Hc].
  pose proof (collected_add_topics _ _ [] _ _ (collected_nil _) Hc) as I.
  simpl in I.
  exists c.
  split; [|split; [reflexivity|split; [reflexivity|split; [reflexivity|
    split; [exact I|split; [|split]]]]]].
  - unfold generate_asyncapi, bind, get. now rewrite Hc.
  - intros t Ht. split; [|split].
    + apply count_occ_one; [apply I|].
      apply (channels_keys _ _ _ I). now apply in_map.
    + apply count_occ_one; [apply I|].
      apply (messages_keys _ _ _ I). now apply in_map.
    + apply count_occ_one; [apply I|].
      apply (schemas_keys _ _ _ I). now apply in_map.
  - intros t1 t2 e H1 H2 E G.
    destruct (shared_entries _ _ _ I t2 H2) as [e2 [G2 [S2 _]]].
    rewrite E in G. congruence.
  - intros N.
    assert (P : Permutation (dict_keys (channels c))
                            (List.map Topic.name (topics g))).
    { apply NoDup_Permutation; [apply I | exact N | apply I]. }
    apply Permutation_length in P.
    unfold dict_keys in P. now rewrite !List.length_map in P.
Qed.

(** Two topics on one event: two channels, one message, one schema. *)
Lemma interface_document_entries_witness :
  exists c,
    generate_asyncapi Sample.shared_event
    = (logged Sample.shared_event
              (WriteFile asyncapi_path (YamlDump (asyncapi_of c))), inr tt)
    /\ List.length (messages c) = 1
    /\ List.length (schemas c) = 1
    /\ List.length (channels c) = 2.
Proof.
  destruct (interface_document_entries Sample.shared_event) as [c [H _]].
  - intros t [<-|[<-|[]]]; reflexivity.
  - exists c. split; [exact H|].
    destruct c as [ch ms sc]. vm_compute in H.
    injection H as Hch Hms Hsc. subst ch ms sc. repeat split.
Defined.

(** ** The wrappers at run time *)

Lemma python_registry_entry_source (topic : Topic.t) :
  python_registry_entry topic
  = destination_source (constant_form (Topic.name topic))
                       (destination_of topic).
Proof.
  unfold python_registry_entry, destination_source, destination_of.
  cbv zeta. rewrite constant_name_form. cbn [Destination.name
    Destination.topic Destination.subscriptions Destination.event_type
    Destination.schema Destination.default_consumer].
  destruct (Topic.get_default_consumer topic) as [[|c s]|]; reflexivity.
Qed.

(** A topic with exactly one consumer, whose name is not empty: the default
    accessor is the lookup of that consumer. *)
Lemma default_subscription_single_consumer (topic : Topic.t) (c : string) :
  Topic.consumed_by topic = [c] -> c <> "" ->
  Destination.default_consumer (destination_of topic) = Some c
  /\ Destination.subscription (destination_of topic)
     = Destination.get_subscription (destination_of topic) c.
Proof.
  intros H N. unfold Destination.subscription, destination_of,
    Topic.get_default_consumer.
  cbn [Destination.default_consumer]. rewrite H.
  destruct c; [contradiction | split; reflexivity].
Qed.

(** A topic with no consumer or with several: the default accessor raises,
    listing the keys of the subscriptions. *)
Lemma default_subscription_ambiguous (topic : Topic.t) :
  List.length (Topic.consumed_by topic) <> 1 ->
  Destination.subscription (destination_of topic)
  = inl (Destination.ValueError (Topic.name topic)
                                (dict_keys (Topic.subscriptions topic))).
Proof.
  intros H. unfold Destination.subscription, destination_of,
    Topic.get_default_consumer.
  cbn [Destination.default_consumer].
  destruct (Topic.consumed_by topic) as [|c [|c' l]]; try reflexivity.
  now contradiction H.
Qed.

Lemma shipped_default_subscriptions :
  Destination.subscription Topics.SPECIFICATION_REQUESTED
  = inr "orchestrator.aegis-test.specification.requested"
  /\ Destination.subscription Topics.SPECIFICATION_CREATED
     = inl (Destination.ValueError "specification-created"
                                   ["analytics"; "notifications"])
  /\ destination_of Sample.requested = Topics.SPECIFICATION_REQUESTED
  /\ destination_of Sample.created = Topics.SPECIFICATION_CREATED.
Proof. repeat split. Qed.

(** C1, at the input on which the code departs from it.  The topic
    [Sample.unnamed_consumer] has exactly one consumer, the empty string,
    which has a subscription.  [get_default_consumer] returns it, but both
    emitters test it for truth, so the emitted [Destination] has no default
    consumer: its default accessor raises the ambiguous-default error while
    the lookup of the consumer returns the subscription.  The Java class
    does the same. *)
Theorem default_accessor_empty_consumer :
  Topic.consumed_by Sample.unnamed_consumer = [""]
  /\ Topic.get_default_consumer Sample.unnamed_consumer = Some ""
  /\ Destination.default_consumer (destination_of Sample.unnamed_consumer)
     = None
  /\ Destination.get_subscription (destination_of Sample.unnamed_consumer) ""
     = inr "orchestrator.aegis-test.specification.requested"
  /\ Destination.subscription (destination_of Sample.unnamed_consumer)
     = inl (Destination.ValueError "specification-requested" [""])
  /\ JavaDestination.getSubscription
       (java_destination_of Sample.unnamed_consumer) ""
     = inr "orchestrator.aegis-test.specification.requested"
  /\ JavaDestination.getSubscription0
       (java_destination_of Sample.unnamed_consumer)
     = inl (JavaDestination.UnsupportedOperationException
              "specification-requested" [""]).
Proof. repeat split. Qed.

(** C2, as stated, fails: the topic [Sample.half_subscribed] declares the
    consumers analytics and notifications and has a subscription for
    analytics only; looking up notifications raises the lookup error, which
    lists analytics alone, not the declared consumers. *)
Lemma lookup_error_not_declared_consumers :
  dict_mem "notifications"
           (Destination.subscriptions (destination_of Sample.half_subscribed))
  = false
  /\ Destination.get_subscription (destination_of Sample.half_subscribed)
                                  "notifications"
     = inl (Destination.KeyError "notifications" "specification-created"
                                 ["analytics"])
  /\ Destination.get_subscription (destination_of Sample.half_subscribed)
                                  "notifications"
     <> inl (Destination.KeyError "notifications" "specification-created"
               (Topic.consumed_by Sample.half_subscribed)).
Proof. repeat split. discriminate. Qed.

Lemma java_class_of_source_order (topic : Topic.t) :
  (List.length (Topic.subscriptions topic) <= 10)%nat ->
  java_class_of topic (java_destination_of topic).
Proof.
  intros H. unfold java_class_of, java_destination_of. simpl.
  repeat split; auto.
Qed.

(** The keys of a map do not depend on the order of its pairs. *)
Lemma dict_mem_permutation {V : Type} (d1 d2 : dict V) (k : string) :
  Permutation d1 d2 -> dict_mem k d1 = dict_mem k d2.
Proof.
  intros P.
  assert (K : In k (dict_keys d1) <-> In k (dict_keys d2)).
  { unfold dict_keys. split; apply Permutation_in;
      [|symmetry]; now apply Permutation_map. }
  rewrite <- !dict_mem_keys in K.
  destruct (dict_mem k d1), (dict_mem k d2); intuition congruence.
Qed.

(** C2, amended.  Looking up a consumer that is not a key of the
    subscriptions raises the lookup error, which names the consumer and the
    topic and lists exactly the keys of the subscriptions mapping, in their
    order: for an emitted [Destination], the consumers of the
    [subscriptions] mapping of the topic's source file.  In an instance of
    the emitted Java class the lookup fails too, naming the consumer and
    the topic and listing the keys of [SUBSCRIPTIONS], which are the same
    consumers in whatever order the map is iterated. *)
Theorem lookup_error_lists_subscription_keys (d : Destination.t)
    (c : string) :
  dict_mem c (Destination.subscriptions d) = false ->
  Destination.get_subscription d c
  = inl (Destination.KeyError c (Destination.name d)
                              (dict_keys (Destination.subscriptions d)))
  /\ (forall topic, d = destination_of topic ->
        Destination.get_subscription d c
        = inl (Destination.KeyError c (Topic.name topic)
                                    (dict_keys (Topic.subscriptions topic)))
        /\ forall j, java_class_of topic j ->
             exists keys,
               JavaDestination.getSubscription j c
               = inl (JavaDestination.IllegalArgumentException
                        c (Topic.name topic) keys)
               /\ Permutation keys (dict_keys (Topic.subscriptions topic))).
Proof.
  unfold Destination.get_subscription.
  intros M.
  assert (E : dict_get c (Destination.subscriptions d) = None).
  { unfold dict_mem in M.
    destruct (dict_get c (Destination.subscriptions d)); congruence. }
  rewrite E. split; [reflexivity|].
  intros topic ->. cbn in *. split; [reflexivity|].
  intros j [_ [N [_ [_ [_ P]]]]].
  exists (dict_keys (JavaDestination.SUBSCRIPTIONS j)). split.
  - unfold JavaDestination.getSubscription.
    assert (Mj : dict_mem c (JavaDestination.SUBSCRIPTIONS j) = false)
      by now rewrite (dict_mem_permutation _ _ c P).
    unfold dict_mem in Mj.
    destruct (dict_get c (JavaDestination.SUBSCRIPTIONS j)); [discriminate|].
    now rewrite N.
  - unfold dict_keys. now apply Permutation_map.
Qed.

(** The lookup of a declared consumer that has no subscription. *)
Lemma lookup_error_lists_subscription_keys_witness :
  Destination.get_subscription (destination_of Sample.half_subscribed)
                               "notifications"
  = inl (Destination.KeyError "notifications" "specification-created"
                              ["analytics"])
  /\ exists keys,
       JavaDestination.getSubscription
         (java_destination_of Sample.half_subscribed) "notifications"
       = inl (JavaDestination.IllegalArgumentException
                "notifications" "specification-created" keys)
       /\ Permutation keys ["analytics"].
Proof.
  destruct (lookup_error_lists_subscription_keys
              (destination_of Sample.half_subscribed) "notifications"
              eq_refl) as [P T].
  split; [exact P|].
  apply (proj2 (T Sample.half_subscribed eq_refl)).
  apply java_class_of_source_order. simpl. lia.
Defined.

(** ** Loading and validation *)

Lemma for_each_log {A : Type} (body : A -> M unit) (l : list A) :
  (forall x g g' r, body x g = (g', r) -> fs_log g' = fs_log g) ->
  forall g g' r, for_each l body g = (g', r) -> fs_log g' = fs_log g.
Proof.
  intros Hb. induction l as [|x l IH]; simpl; intros g g' r H.
  - now injection H as <- _.
  - unfold bind in H. destruct (body x g) as [g1 [e|u]] eqn:E.
    + injection H as <- _. eapply Hb; eauto.
    + rewrite (IH _ _ _ H). eapply Hb; eauto.
Qed.

(** An invariant of the body of a loop holds after a loop that completed. *)
Lemma for_each_inv {A : Type} (P : Generator -> Prop) (body : A -> M unit)
    (l : list A) :
  (forall x g g' u, P g -> body x g = (g', inr u) -> P g') ->
  forall g g', P g -> for_each l body g = (g', inr tt) -> P g'.
Proof.
  intros Hb. induction l as [|x l IH]; simpl; intros g g' Pg H.
  - now injection H as <-.
  - unfold bind in H. destruct (body x g) as [g1 [e|u]] eqn:E; [discriminate|].
    eapply IH; [|exact H]. eapply Hb; eauto.
Qed.

Lemma check_required_fields_state (file : string) (d : TopicDef.t)
    (g : Generator) :
  exists r, check_required_fields file d g = (g, r).
Proof.
  unfold check_required_fields, bind, ret, raise.
  destruct (TopicDef.name d), (TopicDef.topic d), (TopicDef.producedBy d),
    (TopicDef.consumedBy d), (TopicDef.subscriptions d), (TopicDef.payload d);
    eauto.
Qed.

Lemma load_events_spec (repo : Repo) (g g' : Generator) (r : error + unit) :
  load_events repo g = (g', r) ->
  fs_log g' = fs_log g /\ topics g' = topics g.
Proof.
  unfold load_events, bind, or_raise.
  destruct (events_dir repo) as [entries|]; simpl.
  - generalize (sorted_glob ".json" entries). intros l. revert g.
    induction l as [|x l IH]; simpl; intros g H.
    + now injection H as <- _.
    + unfold bind in H at 1. unfold modify in H at 1.
      apply IH in H. simpl in H. exact H.
  - intros H. now injection H as <- _.
Qed.

(** One turn of the loop of [load_topics]. *)
Lemma load_topics_turn (file : string) (d : TopicDef.t) (g g' : Generator)
    (r : error + unit) :
  (check_required_fields file d ;;
   (let topic := topic_of_def d in
    modify (fun g =>
      {| events := events g; topics := (topics g ++ [topic])%list;
         domains := domains g; fs_log := fs_log g |}) ;;
    domain <- or_raise IndexError (domain_of topic) ;;
    modify (fun g =>
      let bucket := get_or (dict_get domain (domains g)) [] in
      {| events := events g; topics := topics g;
         domains := dict_set domain (bucket ++ [topic])%list (domains g);
         fs_log := fs_log g |}))) g = (g', r) ->
  fs_log g' = fs_log g
  /\ events g' = events g
  /\ (r = inr tt ->
      topics g' = (topics g ++ [topic_of_def d])%list
      /\ exists domain, domain_of (topic_of_def d) = Some domain).
Proof.
  destruct (check_required_fields_state file d g) as [rc Hc].
  unfold bind at 1. rewrite Hc. destruct rc as [e|u].
  - intros H. injection H as <- <-. repeat split; discriminate.
  - cbv zeta. unfold bind, modify, or_raise. simpl.
    destruct (domain_of (topic_of_def d)) as [domain|]; simpl.
    + intros H. injection H as <- <-. simpl. repeat split; eauto.
    + intros H. injection H as <- <-. simpl. repeat split; discriminate.
Qed.

Lemma load_topics_spec (repo : Repo) (g g' : Generator) (r : error + unit) :
  load_topics repo g = (g', r) ->
  fs_log g' = fs_log g
  /\ events g' = events g
  /\ (r = inr tt -> domains_defined (topics g) -> domains_defined (topics g')).
Proof.
  unfold load_topics. unfold bind at 1. unfold or_raise.
  destruct (topics_dir repo) as [entries|]; simpl.
  - generalize (sorted_glob ".yaml" entries). intros l. revert g.
    induction l as [|x l IH]; simpl; intros g H.
    + injection H as <- _. auto.
    + unfold bind in H at 1.
      match type of H with
      | (match ?m g with _ => _ end) = _ => destruct (m g) as [g1 r1] eqn:E
      end.
      apply load_topics_turn in E. destruct E as [L1 [E1 T1]].
      destruct r1 as [e|[]].
      * injection H as <- <-. repeat split; auto; discriminate.
      * apply IH in H. destruct H as [L [Ev T]].
        rewrite L, Ev. repeat split; auto.
        intros Hr D. apply T; [exact Hr|].
        destruct (T1 eq_refl) as [Tg [domain Hd]]. rewrite Tg.
        intros t Ht. apply in_app_iff in Ht.
        destruct Ht as [Ht|[<-|[]]]; eauto.
  - intros H. injection H as <- <-. repeat split; auto; discriminate.
Qed.

(** After the two loading stages nothing has been written, and every loaded
    topic has a domain. *)
Lemma loaded_spec (repo : Repo) (g : Generator) (r : error + unit) :
  loaded repo = (g, r) ->
  fs_log g = [] /\ (r = inr tt -> domains_defined (topics g)).
Proof.
  unfold loaded, bind.
  destruct (load_events repo init) as [g1 [e|u]] eqn:E1.
  - intros H. injection H as <- <-.
    apply load_events_spec in E1. split; [apply E1 | discriminate].
  - intros H. apply load_events_spec in E1. destruct E1 as [L1 T1].
    apply load_topics_spec in H. destruct H as [L [_ T]].
    split; [now rewrite L, L1|].
    intros Hr. apply T; [exact Hr|]. rewrite T1. intros t [].
Qed.

Lemma pipeline_loaded (repo : Repo) :
  pipeline repo init
  = match loaded repo with
    | (g, inr _) => (validate ;; generation) g
    | (g, inl e) => (g, inl e)
    end.
Proof.
  unfold pipeline, loaded, generation, bind.
  destruct (load_events repo init) as [g1 [e|u]]; [reflexivity|].
  destruct (load_topics repo g1) as [g2 [e|u']]; reflexivity.
Qed.

(** [validate] leaves the generator as it is, and raises the violation of
    the first topic that does not pass. *)
Lemma validate_spec (g : Generator) :
  validate g
  = (g, match find (fun t => negb (passes (events g) t)) (topics g) with
        | Some t => inl (violation (events g) t)
        | None => inr tt
        end).
Proof.
  unfold validate. unfold bind at 1. unfold get.
  generalize (topics g) as l. generalize (events g) as evs. intros evs l.
  induction l as [|t l IH]; [reflexivity|].
  cbn [for_each find]. unfold bind at 1. unfold bind at 1.
  unfold passes at 1.
  destruct (dict_mem (Topic.event_schema t) evs) eqn:E1; simpl;
    [|unfold violation; now rewrite E1].
  destruct (String.eqb (Topic.event_type t) "event"); simpl;
    [|unfold violation; now rewrite E1].
  exact IH.
Qed.

Lemma find_first {A : Type} (f : A -> bool) (pre post : list A) (x : A) :
  forallb (fun y => negb (f y)) pre = true -> f x = true ->
  find f (pre ++ x :: post) = Some x.
Proof.
  intros Hpre Hx. induction pre as [|y pre IH]; simpl.
  - now rewrite Hx.
  - simpl in Hpre. apply andb_true_iff in Hpre. destruct Hpre as [Hy Hpre].
    apply negb_true_iff in Hy. rewrite Hy. auto.
Qed.

Lemma find_split {A : Type} (f : A -> bool) (l : list A) (x : A) :
  find f l = Some x ->
  exists pre post,
    l = (pre ++ x :: post)%list
    /\ forallb (fun y => negb (f y)) pre = true /\ f x = true.
Proof.
  induction l as [|y l IH]; simpl; [discriminate|].
  destruct (f y) eqn:Ey.
  - intros H. injection H as <-. exists [], l. auto.
  - intros H. destruct (IH H) as [pre [post [-> [Hp Hx]]]].
    exists (y :: pre), post. simpl. rewrite Ey. auto.
Qed.

Lemma find_exists {A : Type} (f : A -> bool) (l : list A) (x : A) :
  In x l -> f x = true -> exists y, find f l = Some y.
Proof.
  intros H Hx. destruct (find f l) eqn:E; [eauto|].
  now rewrite (find_none _ _ E x H) in Hx.
Qed.

Lemma forallb_negb_negb {A : Type} (f : A -> bool) (l : list A) :
  forallb (fun y => negb (negb (f y))) l = forallb f l.
Proof.
  induction l as [|x l IH]; simpl; [reflexivity|].
  now rewrite negb_involutive, IH.
Qed.

(** A run whose validation meets a violation stops there: nothing has been
    written, and the violation is reported. *)
Lemma run_first_violation (repo : Repo) (g : Generator)
    (pre post : list Topic.t) (t : Topic.t) :
  loaded repo = (g, inr tt) ->
  topics g = (pre ++ t :: post)%list ->
  forallb (passes (events g)) pre = true ->
  passes (events g) t = false ->
  run repo = {| performed := []; failure := Some (violation (events g) t) |}.
Proof.
  intros L T Hpre Ht.
  unfold run, run_from. rewrite pipeline_loaded, L.
  unfold bind. rewrite validate_spec, T.
  rewrite find_first; [|now rewrite forallb_negb_negb | now rewrite Ht].
  now rewrite (proj1 (loaded_spec _ _ _ L)).
Qed.

Lemma run_some_violation (repo : Repo) (g : Generator) (t : Topic.t) :
  loaded repo = (g, inr tt) ->
  In t (topics g) -> passes (events g) t = false ->
  exists pre t' post,
    topics g = (pre ++ t' :: post)%list
    /\ forallb (passes (events g)) pre = true
    /\ passes (events g) t' = false
    /\ run repo
       = {| performed := []; failure := Some (violation (events g) t') |}.
Proof.
  intros L H Ht.
  destruct (find_exists (fun t => negb (passes (events g) t)) _ t H)
    as [t' F]; [now rewrite Ht|].
  destruct (find_split _ _ _ F) as [pre [post [T [Hpre Ht']]]].
  apply negb_true_iff in Ht'.
  assert (Hp : forallb (passes (events g)) pre = true)
    by now rewrite <- forallb_negb_negb.
  exists pre, t', post. repeat split; auto.
  eapply run_first_violation; eauto.
Qed.

(** C3, as stated, fails: in [Sample.repo_command_then_dangling] the second
    topic's reference is unknown, yet the run reports the payload kind of
    the first topic, not an unresolved reference. *)
Lemma unresolved_reference_not_reported :
  snd (loaded Sample.repo_command_then_dangling) = inr tt
  /\ In (topic_of_def Sample.dangling_def)
        (topics (fst (loaded Sample.repo_command_then_dangling)))
  /\ dict_mem (Topic.event_schema (topic_of_def Sample.dangling_def))
              (events (fst (loaded Sample.repo_command_then_dangling)))
     = false
  /\ failure (run Sample.repo_command_then_dangling)
     = Some (InvalidType "specification-cancel" "command")
  /\ failure (run Sample.repo_command_then_dangling)
     <> Some (UnknownEventSchema "specification-deleted"
                                 "SpecificationDeletedEventV1").
Proof.
  split; [reflexivity|]. split; [right; left; reflexivity|].
  split; [reflexivity|]. split; [reflexivity|].
  vm_compute. discriminate.
Qed.

(** C3, amended.  When the reference of some loaded topic is not a key of
    the loaded events, the run aborts without any file-system operation and
    reports the first violation in topic-list order: the error of the first
    topic that fails a check of [validate].  That error is the
    unresolved-reference error naming the topic with the unknown reference
    and the reference whenever every topic listed before it passes both
    checks. *)
Theorem unresolved_reference_aborts (repo : Repo) (g : Generator)
    (t : Topic.t) :
  loaded repo = (g, inr tt) ->
  In t (topics g) ->
  dict_mem (Topic.event_schema t) (events g) = false ->
  (exists pre t' post,
     topics g = (pre ++ t' :: post)%list
     /\ forallb (passes (events g)) pre = true
     /\ passes (events g) t' = false
     /\ run repo
        = {| performed := []; failure := Some (violation (events g) t') |})
  /\ (forall pre post,
        topics g = (pre ++ t :: post)%list ->
        forallb (passes (events g)) pre = true ->
        run repo
        = {| performed := [];
             failure := Some (UnknownEventSchema (Topic.name t)
                                                 (Topic.event_schema t)) |}).
Proof.
  intros L H U.
  assert (P : passes (events g) t = false) by (unfold passes; now rewrite U).
  split.
  - eapply run_some_violation; eauto.
  - intros pre post T Hpre.
    rewrite (run_first_violation repo g pre post t L T Hpre P).
    unfold violation. now rewrite U.
Qed.

(** A run whose first topic has an unknown reference. *)
Lemma unresolved_reference_aborts_witness :
  run Sample.repo_dangling_command
  = {| performed := [];
       failure := Some (UnknownEventSchema "specification-cancel"
                                           "SpecificationCancelCommandV1") |}.
Proof.
  refine (proj2 (unresolved_reference_aborts
                   Sample.repo_dangling_command
                   (fst (loaded Sample.repo_dangling_command))
                   (topic_of_def Sample.dangling_command_def) _ _ _)
                [] [] _ _).
  - reflexivity.
  - left. reflexivity.
  - reflexivity.
  - reflexivity.
  - reflexivity.
Defined.

(** C8, as stated, fails: the only topic of [Sample.repo_dangling_command]
    has the payload kind command, yet the run reports its unknown
    reference, not its kind. *)
Lemma unsupported_kind_not_reported :
  snd (loaded Sample.repo_dangling_command) = inr tt
  /\ topics (fst (loaded Sample.repo_dangling_command))
     = [topic_of_def Sample.dangling_command_def]
  /\ Topic.event_type (topic_of_def Sample.dangling_command_def) = "command"
  /\ failure (run Sample.repo_dangling_command)
     = Some (UnknownEventSchema "specification-cancel"
                                "SpecificationCancelCommandV1")
  /\ failure (run Sample.repo_dangling_command)
     <> Some (InvalidType "specification-cancel" "command").
Proof.
  repeat split. vm_compute. discriminate.
Qed.

(** C8, amended.  When the payload kind of some loaded topic is not the
    string event, the run aborts without any file-system operation and
    reports the first violation in topic-list order.  That error is the
    unsupported-payload-kind error naming the topic and its kind whenever
    the topic's reference resolves and every topic listed before it passes
    both checks.  A payload that omits its type gives a topic of kind
    event, which passes the check of the kind. *)
Theorem unsupported_payload_kind_aborts (repo : Repo) (g : Generator)
    (t : Topic.t) :
  loaded repo = (g, inr tt) ->
  In t (topics g) ->
  Topic.event_type t <> "event" ->
  (exists pre t' post,
     topics g = (pre ++ t' :: post)%list
     /\ forallb (passes (events g)) pre = true
     /\ passes (events g) t' = false
     /\ run repo
        = {| performed := []; failure := Some (violation (events g) t') |})
  /\ (forall pre post,
        topics g = (pre ++ t :: post)%list ->
        forallb (passes (events g)) pre = true ->
        dict_mem (Topic.event_schema t) (events g) = true ->
        run repo
        = {| performed := [];
             failure := Some (InvalidType (Topic.name t)
                                          (Topic.event_type t)) |})
  /\ (forall d p,
        TopicDef.payload d = Some p -> TopicDef.type p = None ->
        Topic.event_type (topic_of_def d) = "event"
        /\ String.eqb (Topic.event_type (topic_of_def d)) "event" = true).
Proof.
  intros L H K.
  assert (P : passes (events g) t = false).
  { unfold passes. apply String.eqb_neq in K. rewrite K.
    apply andb_false_r. }
  split; [|split].
  - eapply run_some_violation; eauto.
  - intros pre post T Hpre R.
    rewrite (run_first_violation repo g pre post t L T Hpre P).
    unfold violation. now rewrite R.
  - intros d p Hp Ht. unfold topic_of_def. rewrite Hp. cbn. rewrite Ht.
    split; reflexivity.
Qed.

(** A run whose first topic is command-typed on a known event. *)
Lemma unsupported_payload_kind_aborts_witness :
  run Sample.repo_command_then_dangling
  = {| performed := [];
       failure := Some (InvalidType "specification-cancel" "command") |}.
Proof.
  refine (proj1 (proj2 (unsupported_payload_kind_aborts
                   Sample.repo_command_then_dangling
                   (fst (loaded Sample.repo_command_then_dangling))
                   (topic_of_def Sample.command_def) _ _ _))
                [] [topic_of_def Sample.dangling_def] _ _ _).
  - reflexivity.
  - left. reflexivity.
  - discriminate.
  - reflexivity.
  - reflexivity.
  - reflexivity.
Defined.

(** ** The order of strings and [sorted] *)

Lemma ascii_compare_refl (c : ascii) : Ascii.compare c c = Eq.
Proof. apply N.compare_refl. Qed.

Lemma string_compare_refl (s : string) : String.compare s s = Eq.
Proof.
  induction s as [|c s IH]; simpl; [reflexivity|].
  now rewrite ascii_compare_refl.
Qed.

Lemma string_compare_trans (c : comparison) (a b d : string) :
  String.compare a b = c -> String.compare b d = c -> String.compare a d = c.
Proof.
  revert b d. induction a as [|x a IH]; intros [|y b] [|z d]; simpl;
    try congruence.
  unfold Ascii.compare.
  destruct (N.compare_spec (N_of_ascii x) (N_of_ascii y)) as [E1|L1|G1];
    destruct (N.compare_spec (N_of_ascii y) (N_of_ascii z)) as [E2|L2|G2];
    intros H1 H2; subst; try congruence.
  - rewrite E1, E2, N.compare_refl. now apply IH with b.
  - rewrite E1. now rewrite (proj2 (N.compare_lt_iff _ _) L2).
  - rewrite E1. now rewrite (proj2 (N.compare_gt_iff _ _) G2).
  - rewrite <- E2. now rewrite (proj2 (N.compare_lt_iff _ _) L1).
  - now rewrite (proj2 (N.compare_lt_iff _ _) (N.lt_trans _ _ _ L1 L2)).
  - rewrite <- E2. now rewrite (proj2 (N.compare_gt_iff _ _) G1).
  - now rewrite (proj2 (N.compare_gt_iff _ _) (N.lt_trans _ _ _ G2 G1)).
Qed.

Lemma leb_refl (s : string) : String.leb s s = true.
Proof. unfold String.leb. now rewrite string_compare_refl. Qed.

Lemma leb_trans (a b c : string) :
  String.leb a b = true -> String.leb b c = true -> String.leb a c = true.
Proof.
  unfold String.leb.
  destruct (String.compare a b) eqn:E1; [| |discriminate];
    destruct (String.compare b c) eqn:E2; try discriminate; intros _ _.
  - now rewrite (string_compare_trans Eq a b c E1 E2).
  - apply String.compare_eq_iff in E1. subst. now rewrite E2.
  - apply String.compare_eq_iff in E2. subst. now rewrite E1.
  - now rewrite (string_compare_trans Lt a b c E1 E2).
Qed.

Lemma leb_false (a b : string) :
  String.leb a b = false -> String.leb b a = true /\ a <> b.
Proof.
  intros H. split.
  - destruct (String.leb_total a b) as [T|T]; [congruence | exact T].
  - intros ->. now rewrite leb_refl in H.
Qed.

Section SortingFacts.
Context {A : Type} (key : A -> string).

Lemma insert_by_perm (x : A) (l : list A) :
  Permutation (insert_by key x l) (x :: l).
Proof.
  induction l as [|y l IH]; simpl; [reflexivity|].
  destruct (String.leb (key x) (key y)); [reflexivity|].
  rewrite IH. apply perm_swap.
Qed.

Lemma sorted_perm (l : list A) : Permutation (sorted key l) l.
Proof.
  induction l as [|x l IH]; simpl; [reflexivity|].
  rewrite insert_by_perm. now constructor.
Qed.

Lemma sorted_length (l : list A) : List.length (sorted key l) = List.length l.
Proof. apply Permutation_length, sorted_perm. Qed.

Lemma sorted_in (l : list A) (x : A) : In x (sorted key l) <-> In x l.
Proof.
  split; apply Permutation_in; [|symmetry]; apply sorted_perm.
Qed.

Lemma insert_by_sorted (x : A) (l : list A) :
  Sorted (key_le key) l -> Sorted (key_le key) (insert_by key x l).
Proof.
  induction l as [|y l IH]; simpl; intros S.
  - repeat constructor.
  - destruct (String.leb (key x) (key y)) eqn:E.
    + constructor; [exact S | constructor; exact E].
    + apply Sorted_inv in S. destruct S as [S H].
      constructor; [now apply IH|].
      destruct l as [|z l]; simpl.
      * constructor. apply (leb_false _ _ E).
      * destruct (String.leb (key x) (key z));
          constructor; [apply (leb_false _ _ E) | now apply HdRel_inv in H].
Qed.

Lemma sorted_sorted (l : list A) : Sorted (key_le key) (sorted key l).
Proof.
  induction l as [|x l IH]; simpl; [constructor | now apply insert_by_sorted].
Qed.

(** [sorted] is stable: the items of one key keep their order. *)
Lemma insert_by_filter (r : string) (x : A) (l : list A) :
  filter (fun t => String.eqb (key t) r) (insert_by key x l)
  = filter (fun t => String.eqb (key t) r) (x :: l).
Proof.
  induction l as [|y l IH]; [reflexivity|].
  cbn [insert_by]. destruct (String.leb (key x) (key y)) eqn:E; [reflexivity|].
  cbn [filter] in *. rewrite IH.
  destruct (String.eqb_spec (key x) r) as [Ex|Nx]; [|reflexivity].
  destruct (String.eqb_spec (key y) r) as [Ey|Ny]; [|reflexivity].
  destruct (leb_false _ _ E) as [_ N]. congruence.
Qed.

Lemma sorted_stable (r : string) (l : list A) :
  filter (fun t => String.eqb (key t) r) (sorted key l)
  = filter (fun t => String.eqb (key t) r) l.
Proof.
  induction l as [|x l IH]; [reflexivity|].
  cbn [sorted fold_right]. rewrite insert_by_filter.
  cbn [filter]. fold (sorted key l). now rewrite IH.
Qed.

Lemma insert_by_comm (x y : A) (l : list A) :
  key x <> key y ->
  insert_by key x (insert_by key y l) = insert_by key y (insert_by key x l).
Proof.
  intros N. induction l as [|z l IH]; cbn [insert_by].
  - destruct (String.leb (key x) (key y)) eqn:Exy;
      destruct (String.leb (key y) (key x)) eqn:Eyx; try reflexivity.
    + now destruct N; apply String.leb_antisym.
    + destruct (leb_false _ _ Exy). congruence.
  - destruct (String.leb (key y) (key z)) eqn:Eyz;
      destruct (String.leb (key x) (key z)) eqn:Exz; cbn [insert_by];
      rewrite ?Eyz, ?Exz.
    + destruct (String.leb (key x) (key y)) eqn:Exy;
        destruct (String.leb (key y) (key x)) eqn:Eyx; try reflexivity.
      * now destruct N; apply String.leb_antisym.
      * destruct (leb_false _ _ Exy). congruence.
    + destruct (String.leb (key x) (key y)) eqn:Exy; [|reflexivity].
      now rewrite (leb_trans _ _ _ Exy Eyz) in Exz.
    + destruct (String.leb (key y) (key x)) eqn:Eyx; [|reflexivity].
      now rewrite (leb_trans _ _ _ Eyx Exz) in Eyz.
    + now rewrite IH.
Qed.

(** Items with distinct keys are sorted the same way whatever the order
    they come in. *)
Lemma sorted_permutation (l1 l2 : list A) :
  Permutation l1 l2 -> NoDup (List.map key l1) -> sorted key l1 = sorted key l2.
Proof.
  induction 1 as [|x l1 l2 P IH|x y l|l1 l2 l3 P1 IH1 P2 IH2]; intros N.
  - reflexivity.
  - cbn [sorted fold_right]. fold (sorted key l1) (sorted key l2).
    rewrite IH; [reflexivity|]. now inversion N.
  - cbn [sorted fold_right]. fold (sorted key l).
    apply insert_by_comm. simpl in N. inversion N as [|? ? Hn _]; subst.
    intros E. apply Hn. left. now symmetry.
  - rewrite IH1 by exact N. apply IH2.
    apply (Permutation_NoDup (Permutation_map key P1) N).
Qed.

End SortingFacts.

Lemma filter_perm {A : Type} (p : A -> bool) (l1 l2 : list A) :
  Permutation l1 l2 -> Permutation (filter p l1) (filter p l2).
Proof.
  induction 1 as [|x l1 l2 P IH|x y l|l1 l2 l3 P1 IH1 P2 IH2]; simpl.
  - reflexivity.
  - destruct (p x); [now constructor | exact IH].
  - destruct (p x), (p y); try reflexivity. apply perm_swap.
  - now transitivity (filter p l2).
Qed.

Lemma filter_nodup_keys {A : Type} (key : A -> string) (p : A -> bool)
    (l : list A) :
  NoDup (List.map key l) -> NoDup (List.map key (filter p l)).
Proof.
  induction l as [|x l IH]; simpl; intros N; [constructor|].
  inversion N as [|? ? Hn N']; subst.
  destruct (p x); simpl; [|now apply IH].
  constructor; [|now apply IH].
  intros H. apply Hn. apply in_map_iff in H. destruct H as [y [E H]].
  apply filter_In in H. apply in_map_iff. exists y. tauto.
Qed.

(** The files a glob-and-sort sees do not depend on the order in which the
    directory is enumerated. *)
Lemma sorted_glob_enumeration {A : Type} (suffix : string)
    (l1 l2 : list (string * A)) :
  Permutation l1 l2 -> NoDup (List.map fst l1) ->
  sorted_glob suffix l1 = sorted_glob suffix l2.
Proof.
  intros P N. unfold sorted_glob.
  apply sorted_permutation; [now apply filter_perm|].
  now apply filter_nodup_keys.
Qed.

(** ** Determinism *)

Lemma load_events_enumeration (repo1 repo2 : Repo) :
  same_directory (events_dir repo1) (events_dir repo2) ->
  load_events repo1 = load_events repo2.
Proof.
  unfold same_directory, load_events.
  destruct (events_dir repo1) as [l1|], (events_dir repo2) as [l2|];
    try contradiction; [|reflexivity].
  intros [P N]. unfold bind, or_raise, ret.
  now rewrite (sorted_glob_enumeration ".json" l1 l2 P N).
Qed.

Lemma load_topics_enumeration (repo1 repo2 : Repo) :
  same_directory (topics_dir repo1) (topics_dir repo2) ->
  load_topics repo1 = load_topics repo2.
Proof.
  unfold same_directory, load_topics.
  destruct (topics_dir repo1) as [l1|], (topics_dir repo2) as [l2|];
    try contradiction; [|reflexivity].
  intros [P N]. unfold or_raise, ret. unfold bind at 1 3.
  now rewrite (sorted_glob_enumeration ".yaml" l1 l2 P N).
Qed.

(** ** Schema identifiers *)

Lemma rcut_free (sep : ascii) (s : string) :
  free_of sep s = true -> rcut sep s = None.
Proof.
  induction s as [|c s IH]; simpl; [reflexivity|].
  intros H. apply andb_true_iff in H. destruct H as [Hc Hs].
  rewrite (IH Hs). apply negb_true_iff in Hc. now rewrite Hc.
Qed.

Lemma rcut_last (sep : ascii) (a b : string) :
  free_of sep b = true -> rcut sep (a ++ String sep b) = Some (a, b).
Proof.
  intros H. induction a as [|c a IH]; simpl.
  - now rewrite (rcut_free _ _ H), Ascii.eqb_refl.
  - now rewrite IH.
Qed.

(** The stem of a name with a non-empty extension after a non-empty
    rest. *)
Lemma stem_extension (s ext : string) :
  free_of "." ext = true -> s <> "" -> ext <> "" ->
  stem (s ++ "." ++ ext) = s.
Proof.
  intros F Ns Ne. unfold stem. cbn [append]. rewrite (rcut_last _ _ _ F).
  destruct s; [contradiction|]. destruct ext; [contradiction|]. reflexivity.
Qed.

Lemma base_name_versioned (e v ext : string) :
  free_of "." v = true -> free_of "." ext = true -> ext <> "" ->
  rsplit1_head "." (stem (e ++ "." ++ v ++ "." ++ ext)) = e.
Proof.
  intros Fv Fe Ne.
  replace (e ++ "." ++ v ++ "." ++ ext) with ((e ++ "." ++ v) ++ "." ++ ext)
    by now rewrite append_assoc.
  rewrite stem_extension; [| exact Fe | | exact Ne].
  - unfold rsplit1_head. cbn [append]. now rewrite (rcut_last _ _ _ Fv).
  - destruct e; discriminate.
Qed.

Lemma base_name_unversioned (e ext : string) :
  free_of "." e = true -> free_of "." ext = true -> e <> "" -> ext <> "" ->
  rsplit1_head "." (stem (e ++ "." ++ ext)) = e.
Proof.
  intros Fe Fx Ne Nx. rewrite stem_extension by assumption.
  unfold rsplit1_head. now rewrite (rcut_free _ _ Fe).
Qed.

Lemma load_events_total (repo : Repo) (entries : list (string * dict value))
    (g : Generator) :
  events_dir repo = Some entries ->
  load_events repo g
  = ({| events := fold_left store_event (sorted_glob ".json" entries) (events g);
        topics := topics g; domains := domains g; fs_log := fs_log g |},
     inr tt).
Proof.
  intros E. unfold load_events. rewrite E. unfold bind at 1. simpl.
  generalize (sorted_glob ".json" entries) as l. intros l. revert g.
  induction l as [|f l IH]; intros g; simpl.
  - now destruct g.
  - unfold bind at 1. unfold modify at 1. rewrite IH. reflexivity.
Qed.

Lemma fold_store_other (l : list (string * dict value)) (events : dict Event.t)
    (k : string) :
  (forall f, In f l -> Event.schema_name (event_of_file f) <> k) ->
  dict_get k (fold_left store_event l events) = dict_get k events.
Proof.
  revert events. induction l as [|f l IH]; intros events H; simpl;
    [reflexivity|].
  rewrite IH by (intros f' H'; apply H; now right).
  unfold store_event. apply dict_get_set_other. apply H. now left.
Qed.

(** The event of a file stays under its identifier unless a later file has
    the same identifier. *)
Lemma fold_store_last (l1 l2 : list (string * dict value))
    (f : string * dict value) (events : dict Event.t) :
  (forall f', In f' l2 ->
     Event.schema_name (event_of_file f')
     <> Event.schema_name (event_of_file f)) ->
  dict_get (Event.schema_name (event_of_file f))
           (fold_left store_event (l1 ++ f :: l2) events)
  = Some (event_of_file f).
Proof.
  intros H. rewrite fold_left_app. simpl.
  rewrite fold_store_other by exact H.
  apply dict_get_set_same.
Qed.

(** C9. The base identifier of a schema file is its name without the
    extension and without a trailing dot-separated segment such as a
    version (specification-created.v1.json gives specification-created; a
    name with no such segment loses its extension only).  The event of the
    file is stored under the title of the document when it has one, and
    under the base identifier when it has none; it is found there after
    loading unless a later file took the same identifier. *)
Theorem schema_identifier_derivation (repo : Repo)
    (entries : list (string * dict value)) (g : Generator) :
  events_dir repo = Some entries ->
  (forall e v ext schema,
     free_of "." v = true -> free_of "." ext = true -> ext <> "" ->
     Event.name (event_of_file (e ++ "." ++ v ++ "." ++ ext, schema)) = e)
  /\ (forall e ext schema,
        free_of "." e = true -> free_of "." ext = true ->
        e <> "" -> ext <> "" ->
        Event.name (event_of_file (e ++ "." ++ ext, schema)) = e)
  /\ (forall schema,
        Event.name (event_of_file ("specification-created.v1.json", schema))
        = "specification-created")
  /\ (forall f title,
        dict_get "title" (snd f) = Some (VStr title) ->
        Event.schema_name (event_of_file f) = title)
  /\ (forall f,
        dict_get "title" (snd f) = None ->
        Event.schema_name (event_of_file f)
        = rsplit1_head "." (stem (fst f)))
  /\ (exists g',
        load_events repo g = (g', inr tt)
        /\ forall l1 f l2,
             sorted_glob ".json" entries = (l1 ++ f :: l2)%list ->
             (forall f', In f' l2 ->
                Event.schema_name (event_of_file f')
                <> Event.schema_name (event_of_file f)) ->
             dict_get (Event.schema_name (event_of_file f)) (events g')
             = Some (event_of_file f)).
Proof.
  intros E. repeat split.
  - intros e v ext schema. apply base_name_versioned.
  - intros e ext schema. apply base_name_unversioned.
  - intros f title H. unfold Event.schema_name, event_of_file. simpl.
    now rewrite H.
  - intros f H. unfold Event.schema_name, event_of_file. simpl.
    now rewrite H.
  - eexists. split; [apply (load_events_total repo entries g E)|].
    intros l1 f l2 S H. simpl. rewrite S. now apply fold_store_last.
Qed.

(** The events of the shipped topology, after loading. *)
Lemma schema_identifier_derivation_witness :
  exists g',
    load_events Sample.repo init = (g', inr tt)
    /\ dict_get "SpecificationCreatedEventV1" (events g')
       = Some {| Event.name := "specification-created";
                 Event.schema_path := "events/specification-created.v1.json";
                 Event.schema := Sample.created_schema |}.
Proof.
  destruct (schema_identifier_derivation Sample.repo _ init eq_refl)
    as [_ [_ [_ [_ [_ [g' [L S]]]]]]].
  exists g'. split; [exact L|].
  apply (S [] ("specification-created.v1.json", Sample.created_schema)
           [("specification-requested.v1.json", Sample.requested_schema)]).
  - reflexivity.
  - intros f' [<-|[]]. discriminate.
Defined.

(** ** The [EventType] enumeration *)

Lemma filter_split {A : Type} (p : A -> bool) (l a b : list A) (x : A) :
  filter p l = (a ++ x :: b)%list ->
  exists l1 l2,
    l = (l1 ++ x :: l2)%list /\ filter p l1 = a /\ filter p l2 = b.
Proof.
  revert a. induction l as [|y l IH]; intros a H; simpl in H.
  - now destruct a.
  - destruct (p y) eqn:E.
    + destruct a as [|z a]; simpl in H.
      * injection H as <- H. exists [], l. auto.
      * injection H as <- H. destruct (IH _ H) as [l1 [l2 [-> [H1 H2]]]].
        exists (y :: l1), l2. simpl. rewrite E, H1. auto.
    + destruct (IH _ H) as [l1 [l2 [-> [H1 H2]]]].
      exists (y :: l1), l2. simpl. rewrite E. auto.
Qed.

(** C10. The members of the emitted [EventType] enumeration are one line
    for each loaded topic, in the order of the event references (a stable
    sort: the topics of one reference keep their order), each naming the
    upper-cased reference and giving the wire-level topic string.  Nothing
    is merged: the lines of the topics of one reference are all there, so
    two topics on the same reference give two members of the same name. *)
Theorem event_type_members_per_topic (g : Generator) :
  let members := event_type_members (topics g) in
  let in_order := sorted Topic.event_schema (topics g) in
  _generate_python_destination g
  = (logged g (WriteFile python_destination_path
                         (Text (python_destination_code (topics g)))),
     inr tt)
  /\ python_destination_code (topics g)
     = python_destination_head ++ join (nl ++ "    ") members
       ++ python_destination_tail
  /\ endswith python_destination_head
              ("class EventType(Enum):" ++ nl
               ++ "    " ++ tq ++ "Type of event carried by a messaging destination."
               ++ tq ++ nl ++ "    " ++ nl
               ++ "    # Events from domain topics" ++ nl ++ "    ") = true
  /\ members = List.map event_type_member in_order
  /\ (forall t, event_type_member t
                = upper (Topic.event_schema t) ++ " = " ++ dq ++ Topic.topic t
                  ++ dq)
  /\ List.length members = List.length (topics g)
  /\ Permutation in_order (topics g)
  /\ Sorted (key_le Topic.event_schema) in_order
  /\ (forall r,
        filter (fun t => String.eqb (Topic.event_schema t) r) in_order
        = filter (fun t => String.eqb (Topic.event_schema t) r) (topics g))
  /\ (forall l1 t1 l2 t2 l3,
        topics g = (l1 ++ t1 :: l2 ++ t2 :: l3)%list ->
        Topic.event_schema t1 = Topic.event_schema t2 ->
        exists m1 m2 m3,
          members
          = (m1 ++ event_type_member t1 :: m2 ++ event_type_member t2 :: m3)%list).
Proof.
  intros members in_order. subst members in_order.
  split; [reflexivity|]. split; [reflexivity|]. split; [reflexivity|].
  split; [reflexivity|]. split; [reflexivity|].
  split; [unfold event_type_members; now rewrite List.length_map, sorted_length|].
  split; [apply sorted_perm|]. split; [apply sorted_sorted|].
  split; [intros r; apply sorted_stable|].
  intros l1 t1 l2 t2 l3 T E.
  pose proof (sorted_stable Topic.event_schema (Topic.event_schema t1)
                            (topics g)) as S.
  rewrite T in S at 2.
  rewrite filter_app in S. cbn [filter] in S. rewrite String.eqb_refl in S.
  rewrite filter_app in S. cbn [filter] in S.
  rewrite <- E, String.eqb_refl in S.
  destruct (filter_split _ _ _ _ _ S) as [s1 [s2 [Es [_ S2]]]].
  destruct (filter_split _ _ _ _ _ S2) as [s3 [s4 [Es2 _]]].
  unfold event_type_members. rewrite Es, Es2.
  exists (List.map event_type_member s1), (List.map event_type_member s3),
    (List.map event_type_member s4).
  now rewrite !List.map_app, !List.map_cons, !List.map_app, !List.map_cons.
Qed.

Example shared_event_members :
  event_type_members [Sample.created; Sample.archived]
  = ["SPECIFICATIONCREATEDEVENTV1 = " ++ dq
     ++ "aegis-test.specification.created" ++ dq;
     "SPECIFICATIONCREATEDEVENTV1 = " ++ dq
     ++ "aegis-test.specification.archived" ++ dq].
Proof. reflexivity. Qed.

(** ** The files of a run *)

Lemma logged_all_nil (g : Generator) : logged_all g [] = g.
Proof. destruct g. unfold logged_all. simpl. now rewrite app_nil_r. Qed.

Lemma logged_all_app (g : Generator) (a b : list fs_op) :
  logged_all (logged_all g a) b = logged_all g (a ++ b).
Proof. unfold logged_all. simpl. now rewrite app_assoc. Qed.

Lemma java_topic_step (t : Topic.t) (g : Generator) :
  (exists domain, domain_of t = Some domain) ->
  generate_java_wrappers_topic t g = (logged_all g (java_topic_ops t), inr tt).
Proof.
  intros [domain D].
  unfold generate_java_wrappers_topic, java_topic_ops, _generate_java_class.
  rewrite D. unfold bind, or_raise, ret, perform, modify, logged_all. simpl.
  now rewrite <- app_assoc.
Qed.

Lemma java_loop (l : list Topic.t) (g : Generator) :
  domains_defined l ->
  for_each l generate_java_wrappers_topic g
  = (logged_all g (flat_map java_topic_ops l), inr tt).
Proof.
  revert g. induction l as [|t l IH]; intros g D; simpl.
  - now rewrite logged_all_nil.
  - unfold bind. rewrite java_topic_step by (apply D; now left).
    rewrite IH by (intros t' H'; apply D; now right).
    now rewrite logged_all_app.
Qed.

Lemma java_imports_total (l : list Topic.t) :
  domains_defined l -> exists lines, java_imports l = inr lines.
Proof.
  induction l as [|t l IH]; intros D; simpl; [eauto|].
  unfold java_import. destruct (D t (or_introl eq_refl)) as [domain ->].
  destruct IH as [lines ->]; [intros t' H'; apply D; now right|]. eauto.
Qed.

Lemma java_registry_sections_total (domains : dict (list Topic.t))
    (keys : list string) :
  (forall k, In k keys -> In k (dict_keys domains)) ->
  exists lines, java_registry_sections domains keys = inr lines.
Proof.
  induction keys as [|k keys IH]; intros H; simpl; [eauto|].
  destruct (dict_get_in_keys k domains (H k (or_introl eq_refl))) as [b ->].
  destruct IH as [lines ->]; [intros k' H'; apply H; now right|]. eauto.
Qed.

Lemma python_registry_sections_total (domains : dict (list Topic.t))
    (keys : list string) (text : string) :
  (forall k, In k keys -> In k (dict_keys domains)) ->
  exists text', python_registry_sections domains keys text = inr text'.
Proof.
  revert text. induction keys as [|k keys IH]; intros text H; simpl; [eauto|].
  destruct (dict_get_in_keys k domains (H k (or_introl eq_refl))) as [b ->].
  apply IH. intros k' H'. apply H. now right.
Qed.

Lemma sorted_keys_in (domains : dict (list Topic.t)) (k : string) :
  In k (sorted id (dict_keys domains)) -> In k (dict_keys domains).
Proof. apply sorted_in. Qed.

(** After a successful validation the three emitting stages complete, and
    this is what they do. *)
Lemma generation_total (g : Generator) :
  domains_defined (topics g) ->
  (forall t, In t (topics g) ->
             dict_mem (Topic.event_schema t) (events g) = true) ->
  exists c registry python_registry,
    java_registry_text (topics g) (domains g) = inr registry
    /\ python_topics_code (domains g) = inr python_registry
    /\ add_topics (events g) (topics g) (mkCollections [] [] []) = inr c
    /\ generation g
       = (logged_all g
            (WriteFile asyncapi_path (YamlDump (asyncapi_of c))
             :: flat_map java_topic_ops (topics g)
             ++ [WriteFile java_registry_path (Text registry);
                 WriteFile python_destination_path
                           (Text (python_destination_code (topics g)));
                 WriteFile python_topics_path (Text python_registry)]),
          inr tt).
Proof.
  intros D R.
  destruct (add_topics_total _ _ (mkCollections [] [] []) R) as [c Hc].
  destruct (java_imports_total _ D) as [imports Hi].
  destruct (java_registry_sections_total (domains g)
              (sorted id (dict_keys (domains g))) (sorted_keys_in _))
    as [sections Hs].
  destruct (python_registry_sections_total (domains g)
              (sorted id (dict_keys (domains g))) python_topics_head
              (sorted_keys_in _))
    as [text Ht].
  eexists c, _, _.
  split; [unfold java_registry_text; rewrite Hi, Hs; reflexivity|].
  split; [unfold python_topics_code; rewrite Ht; reflexivity|].
  split; [exact Hc|].
  unfold generation, generate_asyncapi, generate_java_wrappers,
    generate_python_wrappers, _generate_java_topics_registry,
    _generate_python_destination, _generate_python_topics.
  unfold bind, get. rewrite Hc.
  unfold perform, modify. cbn [topics events domains fs_log].
  pose proof (java_loop (topics g)
    {| events := events g; topics := topics g; domains := domains g;
       fs_log := (fs_log g
                  ++ [WriteFile asyncapi_path (YamlDump (asyncapi_of c))])%list |}
    D) as J.
  rewrite J. cbn [logged_all topics events domains fs_log].
  unfold java_registry_text. rewrite Hi, Hs.
  cbn [logged_all topics events domains fs_log].
  unfold python_topics_code. rewrite Ht.
  cbn [logged_all topics events domains fs_log].
  unfold logged_all. f_equal. f_equal.
  rewrite <- !app_assoc. reflexivity.
Qed.

Lemma find_none_forallb {A : Type} (f : A -> bool) (l : list A) :
  forallb f l = true -> find (fun x => negb (f x)) l = None.
Proof.
  induction l as [|x l IH]; simpl; [reflexivity|].
  intros H. apply andb_true_iff in H. destruct H as [Hx Hl].
  rewrite Hx. simpl. auto.
Qed.

Lemma passes_resolves (events : dict Event.t) (l : list Topic.t) :
  forallb (passes events) l = true ->
  forall t, In t l -> dict_mem (Topic.event_schema t) events = true.
Proof.
  intros H t Ht. rewrite forallb_forall in H. specialize (H t Ht).
  unfold passes in H. now apply andb_true_iff in H.
Qed.

Lemma run_after_validation (repo : Repo) (g : Generator) :
  loaded repo = (g, inr tt) ->
  forallb (passes (events g)) (topics g) = true ->
  run repo
  = match generation g with
    | (g', inr _) => {| performed := fs_log g'; failure := None |}
    | (g', inl e) => {| performed := fs_log g'; failure := Some e |}
    end.
Proof.
  intros L V. unfold run, run_from. rewrite pipeline_loaded, L.
  unfold bind at 1. rewrite validate_spec, (find_none_forallb _ _ V).
  reflexivity.
Qed.

Lemma writes_under_app (dir : path) (a b : list fs_op) :
  writes_under dir (a ++ b) = (writes_under dir a ++ writes_under dir b)%list.
Proof. apply flat_map_app. Qed.

Lemma java_topic_ops_defined (t : Topic.t) (domain : string) :
  domain_of t = Some domain ->
  java_class_path t
  = List.app java_topics_dir [domain; class_name_of t ++ ".java"]
  /\ java_topic_ops t
     = [Mkdir (List.app java_topics_dir [domain]);
        WriteFile (java_class_path t)
                  (Text (join nl (java_class_output t (class_name_of t) domain)
                         ++ nl))].
Proof.
  intros D. unfold java_class_path, java_topic_ops. rewrite D. split; reflexivity.
Qed.

Lemma java_topic_ops_writes (t : Topic.t) :
  (exists domain, domain_of t = Some domain) ->
  writes_under java_topics_dir (java_topic_ops t) = [java_class_path t]
  /\ writes_under java_root (java_topic_ops t) = [java_class_path t]
  /\ writes_under python_root (java_topic_ops t) = [].
Proof.
  intros [domain D]. destruct (java_topic_ops_defined t domain D) as [P ->].
  rewrite P. repeat split.
Qed.

Lemma java_loop_writes (l : list Topic.t) :
  domains_defined l ->
  writes_under java_topics_dir (flat_map java_topic_ops l)
  = List.map java_class_path l
  /\ writes_under java_root (flat_map java_topic_ops l)
     = List.map java_class_path l
  /\ writes_under python_root (flat_map java_topic_ops l) = [].
Proof.
  induction l as [|t l IH]; intros D; [repeat split|].
  destruct IH as [I1 [I2 I3]]; [intros t' H'; apply D; now right|].
  destruct (java_topic_ops_writes t (D t (or_introl eq_refl))) as [T1 [T2 T3]].
  cbn [flat_map List.map]. rewrite !writes_under_app, I1, I2, I3, T1, T2, T3.
  repeat split.
Qed.

(** C7, as stated, fails for the Python target: the run over [Sample.repo]
    loads two topics and completes, and the Python target has written two
    files in all, its module of the [Destination] type and its registry,
    not a file for each topic and a registry. *)
Lemma python_target_not_per_topic :
  failure (run Sample.repo) = None
  /\ List.length (topics (fst (loaded Sample.repo))) = 2
  /\ writes_under python_root (performed (run Sample.repo))
     = [python_destination_path; python_topics_path]
  /\ List.length (writes_under python_root (performed (run Sample.repo)))
     <> List.length (topics (fst (loaded Sample.repo))) + 1.
Proof. repeat split. vm_compute. discriminate. Qed.

(** C7, amended.  A run that loads its topics and validates them completes,
    and writes: the interface document; for each loaded topic, in the Java
    target, one class file in the directory of the topic's domain under
    the package's topics directory (made first); the Java registry; and,
    in the Python target, two files whatever the topics are, the module of
    the [Destination] type and the registry, with no file for a topic and
    no directory for a domain. *)
Theorem emitted_files (repo : Repo) (g : Generator) :
  loaded repo = (g, inr tt) ->
  forallb (passes (events g)) (topics g) = true ->
  failure (run repo) = None
  /\ (exists c registry python_registry,
        add_topics (events g) (topics g) (mkCollections [] [] []) = inr c
        /\ java_registry_text (topics g) (domains g) = inr registry
        /\ python_topics_code (domains g) = inr python_registry
        /\ performed (run repo)
           = (WriteFile asyncapi_path (YamlDump (asyncapi_of c))
              :: flat_map java_topic_ops (topics g)
              ++ [WriteFile java_registry_path (Text registry);
                  WriteFile python_destination_path
                            (Text (python_destination_code (topics g)));
                  WriteFile python_topics_path (Text python_registry)])%list)
  /\ (forall t, In t (topics g) ->
        exists domain,
          domain_of t = Some domain
          /\ java_class_path t
             = List.app java_topics_dir [domain; class_name_of t ++ ".java"]
          /\ java_topic_ops t
             = [Mkdir (List.app java_topics_dir [domain]);
                WriteFile (java_class_path t)
                  (Text (join nl (java_class_output t (class_name_of t) domain)
                         ++ nl))])
  /\ writes_under java_topics_dir (performed (run repo))
     = List.map java_class_path (topics g)
  /\ writes_under java_root (performed (run repo))
     = (List.map java_class_path (topics g) ++ [java_registry_path])%list
  /\ writes_under python_root (performed (run repo))
     = [python_destination_path; python_topics_path].
Proof.
  intros L V.
  destruct (loaded_spec _ _ _ L) as [Log D]. specialize (D eq_refl).
  destruct (generation_total g D (passes_resolves _ _ V))
    as [c [registry [python_registry [Hr [Hp [Hc G]]]]]].
  rewrite (run_after_validation repo g L V), G.
  cbn [performed failure logged_all fs_log]. rewrite Log. cbn [List.app].
  destruct (java_loop_writes (topics g) D) as [W1 [W2 W3]].
  split; [reflexivity|]. split; [exists c, registry, python_registry; auto|].
  split.
  - intros t Ht. destruct (D t Ht) as [domain Hd]. exists domain.
    split; [exact Hd|]. now apply java_topic_ops_defined.
  - change (WriteFile asyncapi_path (YamlDump (asyncapi_of c))
            :: (flat_map java_topic_ops (topics g) ++ ?l))%list
      with ([WriteFile asyncapi_path (YamlDump (asyncapi_of c))]
            ++ (flat_map java_topic_ops (topics g) ++ l))%list.
    rewrite !writes_under_app, W1, W2, W3.
    split; [|split].
    + cbn. now rewrite app_nil_r.
    + reflexivity.
    + reflexivity.
Qed.

(** The files of the run over the shipped topology. *)
Lemma emitted_files_witness :
  failure (run Sample.repo) = None
  /\ writes_under java_topics_dir (performed (run Sample.repo))
     = [List.app java_topics_dir ["specification"; "SpecificationCreated.java"];
        List.app java_topics_dir
                 ["specification"; "SpecificationRequested.java"]]
  /\ writes_under python_root (performed (run Sample.repo))
     = [python_destination_path; python_topics_path].
Proof.
  destruct (emitted_files Sample.repo (fst (loaded Sample.repo)))
    as [F [_ [_ [J [_ P]]]]].
  - reflexivity.
  - reflexivity.
  - split; [exact F|]. split; [exact J | exact P].
Defined.

(** ** What a run touches *)

Lemma forallb_false_in {A : Type} (f : A -> bool) (l : list A) :
  forallb f l = false -> exists x, In x l /\ f x = false.
Proof.
  induction l as [|x l IH]; simpl; [discriminate|].
  destruct (f x) eqn:E; simpl.
  - intros H. destruct (IH H) as [y [Hy Fy]]. eauto.
  - intros _. eauto.
Qed.

Lemma java_topic_ops_on_output (l : list Topic.t) :
  forallb on_output (flat_map java_topic_ops l) = true.
Proof.
  induction l as [|t l IH]; [reflexivity|].
  cbn [flat_map]. rewrite forallb_app, IH, andb_true_r.
  unfold java_topic_ops. now destruct (domain_of t).
Qed.

(** Whatever the input, a run touches nothing but its outputs.  The
    exceptions of the model are those of loading and validation (its
    file-system operations do not fail), and a run that stops on one of
    them has touched nothing. *)
Lemma run_touches_outputs_only (repo : Repo) :
  forallb on_output (performed (run repo)) = true
  /\ (failure (run repo) <> None -> performed (run repo) = []).
Proof.
  destruct (loaded repo) as [g [e|[]]] eqn:L.
  - assert (R : run repo = {| performed := []; failure := Some e |}).
    { unfold run, run_from. rewrite pipeline_loaded, L.
      now rewrite (proj1 (loaded_spec _ _ _ L)). }
    rewrite R. split; reflexivity.
  - destruct (forallb (passes (events g)) (topics g)) eqn:V.
    + destruct (loaded_spec _ _ _ L) as [Log D]. specialize (D eq_refl).
      destruct (generation_total g D (passes_resolves _ _ V))
        as [c [registry [python_registry [_ [_ [_ G]]]]]].
      rewrite (run_after_validation repo g L V), G.
      cbn [performed failure logged_all fs_log]. rewrite Log.
      split; [|intros H; now contradiction H].
      cbn [List.app forallb]. rewrite forallb_app, java_topic_ops_on_output.
      reflexivity.
    + destruct (forallb_false_in _ _ V) as [t [Ht Pt]].
      destruct (run_some_violation repo g t L Ht Pt)
        as [pre [t' [post [_ [_ [_ R]]]]]].
      rewrite R. split; reflexivity.
Qed.

(** C6. Two runs over the same input set (the same schema files and the
    same topic files, whose names are distinct within their directory,
    however the operating system enumerates them) perform the same
    file-system operations with the same contents, in the same order, and
    end with the same status: the interface document, the wrapper sources
    and the registry files are the same on both runs.  A run touches its
    outputs only, so the second run reads the input set the first one
    read. *)
Theorem run_deterministic (repo1 repo2 : Repo) :
  same_directory (events_dir repo1) (events_dir repo2) ->
  same_directory (topics_dir repo1) (topics_dir repo2) ->
  run repo1 = run repo2
  /\ forallb on_output (performed (run repo1)) = true.
Proof.
  intros E T. split; [|apply run_touches_outputs_only].
  unfold run, run_from, pipeline.
  now rewrite (load_events_enumeration _ _ E), (load_topics_enumeration _ _ T).
Qed.

(** The shipped topology, enumerated in two orders. *)
Lemma run_deterministic_witness :
  run Sample.repo = run Sample.repo_reordered
  /\ failure (run Sample.repo) = None
  /\ List.length (performed (run Sample.repo)) = 8.
Proof.
  split; [|split; reflexivity].
  apply (run_deterministic Sample.repo Sample.repo_reordered).
  - split; [apply perm_swap|].
    repeat constructor; simpl; intuition discriminate.
  - split; [apply perm_swap|].
    repeat constructor; simpl; intuition discriminate.
Defined.

(** * Further properties of the generator *)

(** ** Loading the topics *)

Lemma check_required_fields_result (file : string) (d : TopicDef.t)
    (g : Generator) :
  check_required_fields file d g
  = (g, match first_missing d with
        | Some field => inl (MissingField file field)
        | None => inr tt
        end).
Proof.
  unfold check_required_fields, first_missing, bind, ret, raise.
  destruct (TopicDef.name d), (TopicDef.topic d), (TopicDef.producedBy d),
    (TopicDef.consumedBy d), (TopicDef.subscriptions d), (TopicDef.payload d);
    reflexivity.
Qed.

(** One turn of the loop of [load_topics], in full. *)
Lemma load_topics_turn_result (yaml_file : string * TopicDef.t)
    (g : Generator) :
  (check_required_fields (fst yaml_file) (snd yaml_file) ;;
   (let topic := topic_of_def (snd yaml_file) in
    modify (fun g =>
      {| events := events g; topics := (topics g ++ [topic])%list;
         domains := domains g; fs_log := fs_log g |}) ;;
    domain <- or_raise IndexError (domain_of topic) ;;
    modify (fun g =>
      let bucket := get_or (dict_get domain (domains g)) [] in
      {| events := events g; topics := topics g;
         domains := dict_set domain (bucket ++ [topic])%list (domains g);
         fs_log := fs_log g |}))) g
  = match first_missing (snd yaml_file) with
    | Some field => (g, inl (MissingField (fst yaml_file) field))
    | None =>
        (with_topic g (topic_of_def (snd yaml_file)),
         match domain_of (topic_of_def (snd yaml_file)) with
         | Some _ => inr tt
         | None => inl IndexError
         end)
    end.
Proof.
  unfold bind at 1. rewrite check_required_fields_result.
  destruct (first_missing (snd yaml_file)); [reflexivity|].
  cbv zeta. unfold bind, modify, or_raise, with_topic, bucket_topic. simpl.
  destruct (domain_of (topic_of_def (snd yaml_file))); reflexivity.
Qed.

Lemma load_topics_loop (repo : Repo) (entries : list (string * TopicDef.t)) :
  topics_dir repo = Some entries ->
  load_topics repo = for_each (sorted_glob ".yaml" entries) load_topic_file.
Proof. intros E. unfold load_topics. now rewrite E. Qed.

Lemma load_topic_file_result (f : string * TopicDef.t) (g : Generator) :
  load_topic_file f g
  = match first_missing (snd f) with
    | Some field => (g, inl (MissingField (fst f) field))
    | None =>
        (with_topic g (topic_of_def (snd f)),
         match domain_of (topic_of_def (snd f)) with
         | Some _ => inr tt
         | None => inl IndexError
         end)
    end.
Proof. apply load_topics_turn_result. Qed.

Lemma load_topic_file_ok (f : string * TopicDef.t) (g : Generator) :
  topic_file_error f = None ->
  load_topic_file f g = (with_topic g (topic_of_def (snd f)), inr tt).
Proof.
  unfold topic_file_error. rewrite load_topic_file_result.
  destruct (first_missing (snd f)); [discriminate|].
  destruct (domain_of (topic_of_def (snd f))); [reflexivity | discriminate].
Qed.

Lemma load_topic_file_error (f : string * TopicDef.t) (g : Generator)
    (e : error) :
  topic_file_error f = Some e ->
  exists g', load_topic_file f g = (g', inl e)
             /\ fs_log g' = fs_log g /\ events g' = events g.
Proof.
  unfold topic_file_error. rewrite load_topic_file_result.
  destruct (first_missing (snd f)).
  - intros H. injection H as <-. eauto.
  - destruct (domain_of (topic_of_def (snd f))); [discriminate|].
    intros H. injection H as <-. eexists. split; [reflexivity|]. auto.
Qed.

Lemma for_each_load_ok (l : list (string * TopicDef.t)) (g : Generator) :
  first_topic_error l = None ->
  for_each l load_topic_file g
  = (fold_left with_topic (topics_of_files l) g, inr tt).
Proof.
  revert g. induction l as [|f l IH]; intros g H; [reflexivity|].
  simpl in H. destruct (topic_file_error f) eqn:E; [discriminate|].
  cbn [for_each]. unfold bind. rewrite (load_topic_file_ok f g E).
  rewrite (IH _ H). reflexivity.
Qed.

Lemma for_each_load_error (l : list (string * TopicDef.t)) (g : Generator)
    (e : error) :
  first_topic_error l = Some e ->
  exists g', for_each l load_topic_file g = (g', inl e)
             /\ fs_log g' = fs_log g /\ events g' = events g.
Proof.
  revert g. induction l as [|f l IH]; intros g H; [discriminate|].
  simpl in H. cbn [for_each]. unfold bind.
  destruct (topic_file_error f) eqn:E.
  - injection H as <-.
    destruct (load_topic_file_error f g _ E) as [g' [-> [L Ev]]]. eauto.
  - rewrite (load_topic_file_ok f g E).
    destruct (IH (with_topic g (topic_of_def (snd f))) H) as [g' [-> [L Ev]]].
    eauto.
Qed.

Lemma fold_with_topic (ts : list Topic.t) (g : Generator) :
  fold_left with_topic ts g
  = {| events := events g;
       topics := (topics g ++ ts)%list;
       domains := fold_left bucket_topic ts (domains g);
       fs_log := fs_log g |}.
Proof.
  revert g. induction ts as [|t ts IH]; intros g; simpl.
  - destruct g. simpl. now rewrite app_nil_r.
  - rewrite IH. unfold with_topic. simpl. now rewrite <- app_assoc.
Qed.

(** The first failing file decomposes the list. *)
Lemma first_topic_error_split (l : list (string * TopicDef.t)) (e : error) :
  first_topic_error l = Some e ->
  exists pre f post,
    l = (pre ++ f :: post)%list
    /\ first_topic_error pre = None /\ topic_file_error f = Some e.
Proof.
  induction l as [|f l IH]; simpl; [discriminate|].
  destruct (topic_file_error f) eqn:E.
  - intros H. injection H as <-. exists [], f, l. auto.
  - intros H. destruct (IH H) as [pre [f' [post [-> [Hp Hf]]]]].
    exists (f :: pre), f', post. simpl. rewrite E. auto.
Qed.

Lemma first_topic_error_at (pre post : list (string * TopicDef.t))
    (f : string * TopicDef.t) :
  first_topic_error pre = None ->
  first_topic_error (pre ++ f :: post)
  = match topic_file_error f with
    | Some e => Some e
    | None => first_topic_error post
    end.
Proof.
  induction pre as [|x pre IH]; simpl; [reflexivity|].
  destruct (topic_file_error x); [discriminate | exact IH].
Qed.

(** What the two loading stages give, as a function of the input. *)
Lemma loaded_result (repo : Repo) :
  match events_dir repo, topics_dir repo with
  | None, _ =>
      loaded repo = (init, inl (FileNotFoundError "Events" "events"))
  | Some json_files, None =>
      loaded repo
      = ({| events := fold_left store_event (sorted_glob ".json" json_files) [];
            topics := []; domains := []; fs_log := [] |},
         inl (FileNotFoundError "Topics" "topics"))
  | Some json_files, Some yaml_files =>
      match first_topic_error (sorted_glob ".yaml" yaml_files) with
      | Some e =>
          exists g, loaded repo = (g, inl e) /\ fs_log g = []
      | None =>
          loaded repo
          = ({| events :=
                  fold_left store_event (sorted_glob ".json" json_files) [];
                topics := topics_of_files (sorted_glob ".yaml" yaml_files);
                domains :=
                  fold_left bucket_topic
                    (topics_of_files (sorted_glob ".yaml" yaml_files)) [];
                fs_log := [] |}, inr tt)
      end
  end.
Proof.
  unfold loaded.
  destruct (events_dir repo) as [json_files|] eqn:Ee.
  - unfold bind. rewrite (load_events_total repo json_files init Ee).
    cbn [events topics domains fs_log init].
    destruct (topics_dir repo) as [yaml_files|] eqn:Et.
    + rewrite (load_topics_loop repo yaml_files Et).
      destruct (first_topic_error (sorted_glob ".yaml" yaml_files)) eqn:F.
      * destruct (for_each_load_error _
          {| events := fold_left store_event (sorted_glob ".json" json_files) [];
             topics := []; domains := []; fs_log := [] |} _ F)
          as [g' [-> [L _]]].
        exists g'. split; [reflexivity | exact L].
      * rewrite (for_each_load_ok _ _ F), fold_with_topic. reflexivity.
    + unfold load_topics. rewrite Et. reflexivity.
  - unfold load_events, bind. rewrite Ee. reflexivity.
Qed.

Lemma run_of_loaded_failure (repo : Repo) (g : Generator) (e : error) :
  loaded repo = (g, inl e) -> fs_log g = [] ->
  run repo = {| performed := []; failure := Some e |}.
Proof.
  intros L F. unfold run, run_from. rewrite pipeline_loaded, L. now rewrite F.
Qed.

(** X1. A run whose events directory is missing stops on it, whatever the
    topics directory holds; a run whose topics directory is missing stops
    on it once the events are loaded.  In both cases nothing is written. *)
Theorem missing_directory_aborts (repo : Repo) :
  (events_dir repo = None ->
   run repo
   = {| performed := [];
        failure := Some (FileNotFoundError "Events" "events") |})
  /\ (events_dir repo <> None -> topics_dir repo = None ->
      run repo
      = {| performed := [];
           failure := Some (FileNotFoundError "Topics" "topics") |}).
Proof.
  pose proof (loaded_result repo) as R. split.
  - intros E. rewrite E in R. now apply run_of_loaded_failure in R.
  - intros E T. destruct (events_dir repo); [|contradiction].
    rewrite T in R. now apply run_of_loaded_failure in R.
Qed.

(** X2. The topic files are read in the order of their names, and the first
    one that lacks a required field stops the run, which names that file
    and the first field it lacks in the order name, topic, producedBy,
    consumedBy, subscriptions, payload; nothing is written. *)
Theorem missing_field_aborts (repo : Repo)
    (yaml_files pre post : list (string * TopicDef.t))
    (f : string * TopicDef.t) (field : string) :
  events_dir repo <> None ->
  topics_dir repo = Some yaml_files ->
  sorted_glob ".yaml" yaml_files = (pre ++ f :: post)%list ->
  first_topic_error pre = None ->
  first_missing (snd f) = Some field ->
  run repo
  = {| performed := []; failure := Some (MissingField (fst f) field) |}.
Proof.
  intros E T S P M. pose proof (loaded_result repo) as R.
  destruct (events_dir repo); [|contradiction]. rewrite T, S in R.
  rewrite (first_topic_error_at _ _ _ P) in R.
  unfold topic_file_error in R. rewrite M in R.
  destruct R as [g [L F]]. now apply run_of_loaded_failure in L.
Qed.

(** A topic file of the sample that lacks its consumers and its payload. *)
Lemma missing_field_aborts_witness :
  run {| events_dir := Some [];
         topics_dir :=
           Some [("b.yaml", Sample.created_def);
                 ("a.yaml",
                  {| TopicDef.name := Some "n"; TopicDef.topic := Some "a.b";
                     TopicDef.description := None;
                     TopicDef.producedBy := Some [];
                     TopicDef.consumedBy := None;
                     TopicDef.subscriptions := Some [];
                     TopicDef.payload := None |})] |}
  = {| performed := []; failure := Some (MissingField "a.yaml" "consumedBy") |}.
Proof.
  eapply (missing_field_aborts _ _ [] [("b.yaml", Sample.created_def)]
            ("a.yaml", _) "consumedBy").
  - discriminate.
  - reflexivity.
  - reflexivity.
  - reflexivity.
  - reflexivity.
Defined.

Lemma split_free (sep : ascii) (s : string) :
  free_of sep s = true -> split sep s = [s].
Proof.
  induction s as [|c s IH]; simpl; [reflexivity|].
  intros H. apply andb_true_iff in H. destruct H as [Hc Hs].
  apply negb_true_iff in Hc. rewrite Hc, (IH Hs). reflexivity.
Qed.

Lemma split_not_free (sep : ascii) (s : string) :
  free_of sep s = false -> exists a b l, split sep s = a :: b :: l.
Proof.
  induction s as [|c s IH]; simpl; [discriminate|].
  destruct (Ascii.eqb c sep) eqn:E; simpl.
  - intros _. destruct (split sep s) as [|w ws] eqn:Es.
    + now destruct (split_nonempty sep s).
    + eauto.
  - intros H. destruct (IH H) as [a [b [l ->]]]. eauto.
Qed.

Lemma domain_of_none (t : Topic.t) :
  domain_of t = None <-> free_of "." (Topic.topic t) = true.
Proof.
  unfold domain_of. split.
  - destruct (free_of "." (Topic.topic t)) eqn:F; [reflexivity|].
    destruct (split_not_free _ _ F) as [a [b [l ->]]]. discriminate.
  - intros F. now rewrite (split_free _ _ F).
Qed.

(** X3. A topic file that has its six fields but whose wire-level topic
    string has no dot has no domain: the run stops on it with
    [IndexError], the files before it in name order being sound, and
    nothing is written. *)
Theorem undotted_topic_aborts (repo : Repo)
    (yaml_files pre post : list (string * TopicDef.t))
    (f : string * TopicDef.t) :
  events_dir repo <> None ->
  topics_dir repo = Some yaml_files ->
  sorted_glob ".yaml" yaml_files = (pre ++ f :: post)%list ->
  first_topic_error pre = None ->
  first_missing (snd f) = None ->
  free_of "." (Topic.topic (topic_of_def (snd f))) = true ->
  run repo = {| performed := []; failure := Some IndexError |}.
Proof.
  intros E T S P M D. pose proof (loaded_result repo) as R.
  destruct (events_dir repo); [|contradiction]. rewrite T, S in R.
  rewrite (first_topic_error_at _ _ _ P) in R.
  unfold topic_file_error in R. rewrite M in R.
  rewrite (proj2 (domain_of_none _) D) in R.
  destruct R as [g [L F]]. now apply run_of_loaded_failure in L.
Qed.

(** A complete topic file whose topic string is a single segment. *)
Lemma undotted_topic_aborts_witness :
  run {| events_dir := Some [];
         topics_dir :=
           Some [("a.yaml",
                  {| TopicDef.name := Some "n"; TopicDef.topic := Some "orders";
                     TopicDef.description := None;
                     TopicDef.producedBy := Some [];
                     TopicDef.consumedBy := Some [];
                     TopicDef.subscriptions := Some [];
                     TopicDef.payload :=
                       Some (TopicDef.mk_payload None None) |})] |}
  = {| performed := []; failure := Some IndexError |}.
Proof.
  eapply (undotted_topic_aborts _ _ [] [] ("a.yaml", _)).
  - discriminate.
  - reflexivity.
  - reflexivity.
  - reflexivity.
  - reflexivity.
  - reflexivity.
Defined.

(** X4. After a successful load the topic list holds one topic for each
    file of the topics directory whose name ends in .yaml, and no other,
    in the order of the file names; every such file has its six fields and
    a dotted topic string; and the events are those of the schema files,
    stored in the order of their names. *)
Theorem topics_loaded_in_name_order (repo : Repo) (g : Generator) :
  loaded repo = (g, inr tt) ->
  exists json_files yaml_files,
    events_dir repo = Some json_files
    /\ topics_dir repo = Some yaml_files
    /\ topics g = topics_of_files (sorted_glob ".yaml" yaml_files)
    /\ Sorted (key_le fst) (sorted_glob ".yaml" yaml_files)
    /\ (forall f, In f (sorted_glob ".yaml" yaml_files)
                  <-> In f yaml_files /\ endswith (fst f) ".yaml" = true)
    /\ first_topic_error (sorted_glob ".yaml" yaml_files) = None
    /\ events g = fold_left store_event (sorted_glob ".json" json_files) [].
Proof.
  intros L. pose proof (loaded_result repo) as R. rewrite L in R.
  destruct (events_dir repo) as [json_files|]; [|discriminate].
  destruct (topics_dir repo) as [yaml_files|]; [|discriminate].
  destruct (first_topic_error (sorted_glob ".yaml" yaml_files)) eqn:F.
  - destruct R as [g' [R _]]. discriminate.
  - injection R as ->. exists json_files, yaml_files.
    split; [reflexivity|]. split; [reflexivity|]. split; [reflexivity|].
    split; [apply sorted_sorted|]. split; [|split; [exact F | reflexivity]].
    intros f. unfold sorted_glob. rewrite sorted_in, filter_In. reflexivity.
Qed.

(** The shipped topology, loaded. *)
Lemma topics_loaded_in_name_order_witness :
  exists json_files yaml_files,
    events_dir Sample.repo = Some json_files
    /\ topics_dir Sample.repo = Some yaml_files
    /\ topics (fst (loaded Sample.repo))
       = topics_of_files (sorted_glob ".yaml" yaml_files)
    /\ topics (fst (loaded Sample.repo)) = [Sample.created; Sample.requested].
Proof.
  destruct (topics_loaded_in_name_order Sample.repo (fst (loaded Sample.repo))
              eq_refl)
    as [jf [yf [E [T [Tg _]]]]].
  exists jf, yf. repeat split; assumption || reflexivity.
Defined.

(** ** The domain buckets *)

Lemma bucket_topic_partition (doms : dict (list Topic.t))
    (seen : list Topic.t) (t : Topic.t) :
  (forall k, dict_get k doms
             = match filter (has_domain k) seen with
               | [] => None
               | b => Some b
               end) ->
  forall k, dict_get k (bucket_topic doms t)
            = match filter (has_domain k) (seen ++ [t]) with
              | [] => None
              | b => Some b
              end.
Proof.
  intros H k. rewrite filter_app. cbn [filter].
  unfold bucket_topic, has_domain at 2.
  destruct (domain_of t) as [d|]; [|now rewrite app_nil_r].
  destruct (String.eqb_spec d k) as [->|N].
  - rewrite dict_get_set_same, H.
    destruct (filter (has_domain k) seen); reflexivity.
  - rewrite dict_get_set_other by exact N. now rewrite H, app_nil_r.
Qed.

Lemma bucket_topic_nodup (doms : dict (list Topic.t)) (t : Topic.t) :
  NoDup (dict_keys doms) -> NoDup (dict_keys (bucket_topic doms t)).
Proof.
  intros N. unfold bucket_topic. destruct (domain_of t); [|exact N].
  now apply dict_keys_set_nodup.
Qed.

Lemma fold_bucket_partition (ts seen : list Topic.t)
    (doms : dict (list Topic.t)) :
  NoDup (dict_keys doms) ->
  (forall k, dict_get k doms
             = match filter (has_domain k) seen with
               | [] => None
               | b => Some b
               end) ->
  NoDup (dict_keys (fold_left bucket_topic ts doms))
  /\ forall k, dict_get k (fold_left bucket_topic ts doms)
               = match filter (has_domain k) (seen ++ ts) with
                 | [] => None
                 | b => Some b
                 end.
Proof.
  revert seen doms. induction ts as [|t ts IH]; intros seen doms N H; simpl.
  - rewrite app_nil_r. auto.
  - replace (seen ++ t :: ts)%list with ((seen ++ [t]) ++ ts)%list
      by now rewrite <- app_assoc.
    apply IH; [now apply bucket_topic_nodup|].
    now apply bucket_topic_partition.
Qed.

(** What the loaded domains are, for any successful load. *)
Lemma loaded_domains (repo : Repo) (g : Generator) :
  loaded repo = (g, inr tt) ->
  NoDup (dict_keys (domains g))
  /\ forall k, dict_get k (domains g)
               = match filter (has_domain k) (topics g) with
                 | [] => None
                 | b => Some b
                 end.
Proof.
  intros L. pose proof (loaded_result repo) as R. rewrite L in R.
  destruct (events_dir repo) as [json_files|]; [|discriminate].
  destruct (topics_dir repo) as [yaml_files|]; [|discriminate].
  destruct (first_topic_error (sorted_glob ".yaml" yaml_files)) eqn:F.
  - destruct R as [g' [R _]]. discriminate.
  - injection R as ->. cbn [domains topics].
    apply (fold_bucket_partition _ [] []); [constructor | reflexivity].
Qed.

Lemma has_domain_true (k : string) (t : Topic.t) :
  has_domain k t = true <-> domain_of t = Some k.
Proof.
  unfold has_domain. destruct (domain_of t) as [d|].
  - rewrite String.eqb_eq. split; congruence.
  - split; discriminate.
Qed.

(** The loaded domains and the loaded topics. *)
Lemma domains_partition_topics_aux (repo : Repo) (g : Generator) :
  loaded repo = (g, inr tt) ->
  NoDup (dict_keys (domains g))
  /\ (forall k, dict_get k (domains g)
                = match filter (has_domain k) (topics g) with
                  | [] => None
                  | b => Some b
                  end)
  /\ (forall k, In k (dict_keys (domains g))
                <-> exists t, In t (topics g) /\ domain_of t = Some k)
  /\ (forall t, In t (topics g) -> exists k, domain_of t = Some k).
Proof.
  intros L. destruct (loaded_domains repo g L) as [N P].
  destruct (loaded_spec _ _ _ L) as [_ D]. specialize (D eq_refl).
  split; [exact N|]. split; [exact P|]. split; [|exact D].
  intros k. rewrite <- dict_mem_keys, dict_mem_true, P. split.
  - intros [b Hb].
    destruct (filter (has_domain k) (topics g)) as [|t b'] eqn:E;
      [discriminate|].
    assert (Ht : In t (filter (has_domain k) (topics g)))
      by (rewrite E; now left).
    apply filter_In in Ht. exists t. split; [tauto|].
    now apply has_domain_true.
  - intros [t [Ht Hd]].
    assert (Hf : In t (filter (has_domain k) (topics g)))
      by (apply filter_In; split; [exact Ht | now apply has_domain_true]).
    destruct (filter (has_domain k) (topics g)); [contradiction | eauto].
Qed.

(** X5. The domain buckets partition the loaded topics: the bucket of a
    domain holds exactly the topics whose second topic segment is that
    domain, in load order; a domain has a bucket only if some topic
    belongs to it; no domain has two buckets; and every loaded topic is in
    the bucket of its domain. *)
Theorem domains_partition_topics (repo : Repo) (g : Generator) :
  loaded repo = (g, inr tt) ->
  NoDup (dict_keys (domains g))
  /\ (forall k, dict_get k (domains g)
                = match filter (has_domain k) (topics g) with
                  | [] => None
                  | b => Some b
                  end)
  /\ (forall k, In k (dict_keys (domains g))
                <-> exists t, In t (topics g) /\ domain_of t = Some k)
  /\ (forall t, In t (topics g) ->
        exists k bucket,
          domain_of t = Some k
          /\ dict_get k (domains g) = Some bucket /\ In t bucket).
Proof.
  intros L. destruct (domains_partition_topics_aux repo g L) as [N [P [K D]]].
  split; [exact N|]. split; [exact P|]. split; [exact K|].
  intros t Ht. destruct (D t Ht) as [k Hk].
  assert (Hf : In t (filter (has_domain k) (topics g)))
    by (apply filter_In; split; [exact Ht | now apply has_domain_true]).
  exists k, (filter (has_domain k) (topics g)).
  split; [exact Hk|]. split; [|exact Hf]. rewrite P.
  destruct (filter (has_domain k) (topics g)); [contradiction | reflexivity].
Qed.

(** The buckets of the shipped topology. *)
Lemma domains_partition_topics_witness :
  dict_get "specification" (domains (fst (loaded Sample.repo)))
  = Some [Sample.created; Sample.requested]
  /\ dict_keys (domains (fst (loaded Sample.repo))) = ["specification"].
Proof.
  destruct (domains_partition_topics Sample.repo (fst (loaded Sample.repo))
              eq_refl) as [_ [P _]].
  split; [|reflexivity]. rewrite P. reflexivity.
Defined.

(** ** The registries *)

Lemma flat_map_ext_in {A B : Type} (f g : A -> list B) (l : list A) :
  (forall x, In x l -> f x = g x) -> flat_map f l = flat_map g l.
Proof.
  induction l as [|x l IH]; intros H; simpl; [reflexivity|].
  rewrite (H x (or_introl eq_refl)), IH; [reflexivity|].
  intros y Hy. apply H. now right.
Qed.

Lemma flat_map_nil {A B : Type} (l : list A) :
  flat_map (fun _ : A => @nil B) l = [].
Proof. induction l; simpl; auto. Qed.

(** Adding an item to the piece of one key adds it to the whole. *)
Lemma flat_map_insert {B : Type} (f g : string -> list B) (x : B)
    (k0 : string) (keys : list string) :
  NoDup keys -> In k0 keys ->
  f k0 = x :: g k0 -> (forall k, k <> k0 -> f k = g k) ->
  Permutation (flat_map f keys) (x :: flat_map g keys).
Proof.
  intros N I H0 H. induction keys as [|k keys IH]; [contradiction|].
  inversion N as [|? ? Hn N']; subst. simpl.
  destruct (string_dec k k0) as [->|Nk].
  - rewrite H0. simpl. constructor.
    rewrite (flat_map_ext_in f g keys); [reflexivity|].
    intros y Hy. apply H. intros ->. contradiction.
  - destruct I as [E|I]; [contradiction|].
    rewrite (H k Nk). rewrite (IH N' I). symmetry. apply Permutation_middle.
Qed.

(** The pieces of a list by domain, over all its domains, make up the
    list. *)
Lemma partition_by_domain (keys : list string) (l : list Topic.t) :
  NoDup keys ->
  (forall t, In t l -> exists k, In k keys /\ domain_of t = Some k) ->
  Permutation (flat_map (fun k => filter (has_domain k) l) keys) l.
Proof.
  intros N. induction l as [|t l IH]; intros H.
  - simpl. now rewrite flat_map_nil.
  - destruct (H t (or_introl eq_refl)) as [k0 [I D]].
    rewrite (flat_map_insert
               (fun k => filter (has_domain k) (t :: l))
               (fun k => filter (has_domain k) l) t k0 keys N I).
    + constructor. apply IH. intros t' H'. apply H. now right.
    + cbn [filter]. now rewrite (proj2 (has_domain_true k0 t) D).
    + intros k Nk. cbn [filter].
      destruct (has_domain k t) eqn:E; [|reflexivity].
      apply has_domain_true in E. congruence.
Qed.

Lemma java_sections_of (doms : dict (list Topic.t))
    (bucket : string -> list Topic.t) (keys : list string) :
  (forall k, In k keys -> dict_get k doms = Some (bucket k)) ->
  java_registry_sections doms keys
  = inr (flat_map
           (fun k => (java_registry_domain_header k
                      ++ flat_map java_registry_entry (bucket k))%list)
           keys).
Proof.
  induction keys as [|k keys IH]; intros H; [reflexivity|].
  cbn [java_registry_sections flat_map].
  rewrite (H k (or_introl eq_refl)), IH by (intros k' H'; apply H; now right).
  cbn [List.concat]. rewrite app_nil_r, <- flat_map_concat_map.
  now rewrite app_assoc.
Qed.

Lemma fold_left_append {A : Type} (f : A -> string) (l : list A)
    (text : string) :
  fold_left (fun text x => text ++ f x) l text
  = text ++ String.concat "" (List.map f l).
Proof.
  revert text. induction l as [|x l IH]; intros text; cbn [fold_left List.map].
  - simpl. now rewrite append_nil_r.
  - now rewrite IH, append_assoc, concat_empty_cons.
Qed.

Lemma python_sections_of (doms : dict (list Topic.t))
    (bucket : string -> list Topic.t) (keys : list string) (text : string) :
  (forall k, In k keys -> dict_get k doms = Some (bucket k)) ->
  python_registry_sections doms keys text
  = inr (text
         ++ String.concat ""
              (List.map
                 (fun k => python_registry_domain_header k
                           ++ String.concat ""
                                (List.map python_registry_entry (bucket k)))
                 keys)).
Proof.
  revert text. induction keys as [|k keys IH]; intros text H.
  - simpl. now rewrite append_nil_r.
  - cbn [python_registry_sections List.map].
    rewrite (H k (or_introl eq_refl)), IH by (intros k' H'; apply H; now right).
    rewrite fold_left_append, concat_empty_cons, !append_assoc. reflexivity.
Qed.

Lemma sorted_nodup (l : list string) : NoDup l -> NoDup (sorted id l).
Proof.
  apply Permutation_NoDup. symmetry. apply sorted_perm.
Qed.

(** X6. Both registries list every loaded topic, and each one once: their
    sections are the domains in the order of their names, no domain twice,
    each section holding the entries of the topics of its domain in load
    order, and the topics of all the sections are a rearrangement of the
    topic list. *)
Theorem registries_list_every_topic_once (repo : Repo) (g : Generator) :
  loaded repo = (g, inr tt) ->
  let keys := sorted id (dict_keys (domains g)) in
  List.map fst (registry_order g) = keys
  /\ Sorted (key_le id) keys
  /\ NoDup keys
  /\ Permutation (flat_map snd (registry_order g)) (topics g)
  /\ java_registry_sections (domains g) keys
     = inr (flat_map
              (fun s => (java_registry_domain_header (fst s)
                         ++ flat_map java_registry_entry (snd s))%list)
              (registry_order g))
  /\ (forall text,
       python_registry_sections (domains g) keys text
       = inr (text
              ++ String.concat ""
                   (List.map
                      (fun s => python_registry_domain_header (fst s)
                                ++ String.concat ""
                                     (List.map python_registry_entry (snd s)))
                      (registry_order g))))
  /\ python_topics_code (domains g)
     = inr (python_topics_head
            ++ String.concat ""
                 (List.map
                    (fun s => python_registry_domain_header (fst s)
                              ++ String.concat ""
                                   (List.map python_registry_entry (snd s)))
                    (registry_order g))
            ++ python_topics_tail).
Proof.
  intros L keys. subst keys.
  destruct (domains_partition_topics_aux repo g L) as [N [P [K D]]].
  assert (B : forall k, In k (sorted id (dict_keys (domains g))) ->
                dict_get k (domains g)
                = Some (filter (has_domain k) (topics g))).
  { intros k Hk. apply sorted_in in Hk. apply K in Hk.
    destruct Hk as [t [Ht Hd]]. rewrite P.
    assert (Hf : In t (filter (has_domain k) (topics g)))
      by (apply filter_In; split; [exact Ht | now apply has_domain_true]).
    destruct (filter (has_domain k) (topics g)); [contradiction | reflexivity]. }
  unfold registry_order.
  split; [rewrite List.map_map; apply List.map_id|].
  split; [apply sorted_sorted|].
  split; [now apply sorted_nodup|].
  split.
  - rewrite flat_map_concat_map, List.map_map, <- flat_map_concat_map.
    cbn [snd]. apply partition_by_domain; [now apply sorted_nodup|].
    intros t Ht. destruct (D t Ht) as [k Hk]. exists k. split; [|exact Hk].
    apply sorted_in. apply K. eauto.
  - split; [|split].
    + rewrite (java_sections_of _ _ _ B).
      now rewrite !flat_map_concat_map, List.map_map.
    + intros text. rewrite (python_sections_of _ _ _ _ B).
      now rewrite List.map_map.
    + unfold python_topics_code. rewrite (python_sections_of _ _ _ _ B).
      now rewrite List.map_map, append_assoc.
Qed.

(** The sections of the registries of the shipped topology. *)
Lemma registries_list_every_topic_once_witness :
  registry_order (fst (loaded Sample.repo))
  = [("specification", [Sample.created; Sample.requested])]
  /\ Permutation (flat_map snd (registry_order (fst (loaded Sample.repo))))
                 (topics (fst (loaded Sample.repo))).
Proof.
  split; [reflexivity|].
  apply (registries_list_every_topic_once Sample.repo
           (fst (loaded Sample.repo)) eq_refl).
Defined.

(** ** The files that are read *)

Lemma sorted_glob_unmatched {A : Type} (suffix : string)
    (l extra : list (string * A)) :
  (forall f, In f extra -> endswith (fst f) suffix = false) ->
  sorted_glob suffix (l ++ extra) = sorted_glob suffix l.
Proof.
  intros H. unfold sorted_glob. rewrite filter_app.
  replace (filter (fun f => endswith (fst f) suffix) extra) with
    (@nil (string * A)); [now rewrite app_nil_r|].
  symmetry. induction extra as [|x extra IH]; [reflexivity|].
  simpl. rewrite (H x (or_introl eq_refl)). apply IH.
  intros f Hf. apply H. now right.
Qed.

(** X8. Only the files the two patterns match are read: files of the events
    directory whose name does not end in .json and files of the topics
    directory whose name does not end in .yaml change nothing to a run,
    whatever they hold. *)
Theorem unmatched_files_ignored
    (json_files other_events : list (string * dict value))
    (yaml_files other_topics : list (string * TopicDef.t)) :
  (forall f, In f other_events -> endswith (fst f) ".json" = false) ->
  (forall f, In f other_topics -> endswith (fst f) ".yaml" = false) ->
  run {| events_dir := Some (json_files ++ other_events)%list;
         topics_dir := Some (yaml_files ++ other_topics)%list |}
  = run {| events_dir := Some json_files; topics_dir := Some yaml_files |}.
Proof.
  intros He Ht.
  assert (E : load_events
                {| events_dir := Some (json_files ++ other_events)%list;
                   topics_dir := Some (yaml_files ++ other_topics)%list |}
              = load_events {| events_dir := Some json_files;
                               topics_dir := Some yaml_files |}).
  { unfold load_events. cbn [events_dir]. unfold bind, or_raise, ret.
    now rewrite (sorted_glob_unmatched ".json" _ _ He). }
  assert (T : load_topics
                {| events_dir := Some (json_files ++ other_events)%list;
                   topics_dir := Some (yaml_files ++ other_topics)%list |}
              = load_topics {| events_dir := Some json_files;
                               topics_dir := Some yaml_files |}).
  { rewrite (load_topics_loop
               {| events_dir := Some (json_files ++ other_events)%list;
                  topics_dir := Some (yaml_files ++ other_topics)%list |}
               (yaml_files ++ other_topics)%list eq_refl).
    rewrite (load_topics_loop
               {| events_dir := Some json_files;
                  topics_dir := Some yaml_files |} yaml_files eq_refl).
    now rewrite (sorted_glob_unmatched ".yaml" _ _ Ht). }
  unfold run, run_from, pipeline. now rewrite E, T.
Qed.

(** The shipped topology with a note and a template beside its files. *)
Lemma unmatched_files_ignored_witness :
  run {| events_dir :=
           Some [("specification-requested.v1.json", Sample.requested_schema);
                 ("specification-created.v1.json", Sample.created_schema);
                 ("README.md", [])];
         topics_dir :=
           Some [("specification-requested.yaml", Sample.requested_def);
                 ("specification-created.yaml", Sample.created_def);
                 ("template.yml", Sample.command_def)] |}
  = run Sample.repo.
Proof.
  apply (unmatched_files_ignored
           [("specification-requested.v1.json", Sample.requested_schema);
            ("specification-created.v1.json", Sample.created_schema)]
           [("README.md", [])]
           [("specification-requested.yaml", Sample.requested_def);
            ("specification-created.yaml", Sample.created_def)]
           [("template.yml", Sample.command_def)]).
  - intros f [<-|[]]. reflexivity.
  - intros f [<-|[]]. reflexivity.
Defined.

(** ** The subscriptions of a registry entry *)

Lemma rstrip_keep (chars : list ascii) (a b : string) :
  rstrip chars b <> "" -> rstrip chars (a ++ b) = a ++ rstrip chars b.
Proof.
  intros N. induction a as [|c a IH]; [reflexivity|].
  cbn [append rstrip]. rewrite IH.
  destruct (a ++ rstrip chars b) eqn:E; [|reflexivity].
  destruct a; simpl in E; [contradiction | discriminate].
Qed.

Lemma concat_terminated {A : Type} (g : A -> string) (sep : string)
    (x : A) (l : list A) :
  String.concat "" (List.map (fun y => g y ++ sep) (x :: l))
  = String.concat sep (List.map g (x :: l)) ++ sep.
Proof.
  revert x. induction l as [|y l IH]; intros x.
  - reflexivity.
  - cbn [List.map]. rewrite concat_empty_cons, concat_cons2.
    cbn [List.map] in IH. rewrite IH, !append_assoc. reflexivity.
Qed.

Lemma subscription_lines_end (x : string * string)
    (l : list (string * string)) :
  exists p,
    String.concat ("," ++ nl) (List.map python_subscription_line (x :: l))
    = p ++ dq.
Proof.
  revert x. induction l as [|y l IH]; intros x.
  - cbn [List.map String.concat]. unfold python_subscription_line.
    exists ("            " ++ dq ++ fst x ++ dq ++ ": " ++ dq ++ snd x).
    now rewrite !append_assoc.
  - destruct (IH y) as [p Hp]. cbn [List.map] in *.
    rewrite concat_cons2, Hp.
    exists (python_subscription_line x ++ ("," ++ nl) ++ p).
    now rewrite !append_assoc.
Qed.

Lemma subscriptions_fold (l : list (string * string)) (text : string) :
  fold_left
    (fun text item =>
       text ++ "            " ++ dq ++ fst item ++ dq ++ ": " ++ dq
       ++ snd item ++ dq ++ "," ++ nl) l text
  = text ++ String.concat ""
              (List.map (fun item => python_subscription_line item
                                     ++ "," ++ nl) l).
Proof.
  rewrite <- (fold_left_append
                (fun item => python_subscription_line item ++ "," ++ nl)).
  revert text. induction l as [|x l IH]; intros text; [reflexivity|].
  cbn [fold_left]. rewrite IH. f_equal. f_equal.
  unfold python_subscription_line. now rewrite !append_assoc.
Qed.

(** X10. The subscriptions of a Python registry entry are printed one per
    line in the order of the mapping, separated by a comma and a line
    break, between an opening and a closing brace on lines of their own;
    removing the trailing comma never removes anything of the last
    subscription, whatever characters it ends with, and an empty mapping
    gives the two braces. *)
Theorem python_subscriptions_printed (topic : Topic.t) :
  python_subscriptions_text topic
  = "{" ++ nl
    ++ match Topic.subscriptions topic with
       | [] => ""
       | items =>
           join ("," ++ nl) (List.map python_subscription_line items) ++ nl
       end
    ++ "        }"
  /\ exists before after,
       python_registry_entry topic
       = before ++ "        subscriptions=" ++ python_subscriptions_text topic
         ++ after.
Proof.
  split.
  - unfold python_subscriptions_text. rewrite subscriptions_fold.
    destruct (Topic.subscriptions topic) as [|x l]; [reflexivity|].
    rewrite (concat_terminated python_subscription_line ("," ++ nl) x l).
    destruct (subscription_lines_end x l) as [p Hp].
    unfold join. rewrite Hp.
    replace (("{" ++ nl) ++ (p ++ dq) ++ "," ++ nl)
      with ((("{" ++ nl) ++ p) ++ (dq ++ "," ++ nl))
      by now rewrite !append_assoc.
    rewrite rstrip_keep by (vm_compute; discriminate).
    replace (rstrip ["," ; ascii_of_nat 10]%char (dq ++ "," ++ nl)) with dq
      by reflexivity.
    now rewrite !append_assoc.
  - unfold python_registry_entry. cbv zeta.
    fold (python_subscriptions_text topic).
    exists ("    " ++ join "_" (split "-" (upper (Topic.name topic)))
            ++ " = Destination(" ++ nl ++ "        name=" ++ dq
            ++ Topic.name topic ++ dq ++ "," ++ nl ++ "        topic=" ++ dq
            ++ Topic.topic topic ++ dq ++ "," ++ nl).
    eexists. rewrite !append_assoc. reflexivity.
Qed.

(** ** Constant names *)

Lemma kebab_char_back (c : ascii) :
  kebab_char c = true ->
  (let k := if Ascii.eqb c "-" then "_"%char else upper_char c in
   if Ascii.eqb k "_" then "-"%char else lower_char k) = c.
Proof.
  destruct c as [[] [] [] [] [] [] [] []]; vm_compute; congruence.
Qed.

Lemma semantic_form_constant_form (n : string) :
  kebab n = true -> semantic_form (constant_form n) = n.
Proof.
  unfold semantic_form, constant_form. rewrite map_map.
  induction n as [|c n IH]; [reflexivity|].
  cbn [kebab PyStr.map]. intros H. apply andb_true_iff in H.
  destruct H as [Hc Hn]. rewrite (IH Hn). f_equal.
  apply (kebab_char_back c Hc).
Qed.

(** X11. On kebab-case names (lower-case letters, digits and hyphens) the
    constant name determines the semantic name: turning the constant back
    to lower case with hyphens for underscores gives the name again, so
    two topics with different kebab-case names never get the same
    constant in a registry. *)
Theorem constant_names_distinct (t1 t2 : Topic.t) :
  kebab (Topic.name t1) = true ->
  kebab (Topic.name t2) = true ->
  semantic_form (Topic.get_java_constant_name t1) = Topic.name t1
  /\ (Topic.get_java_constant_name t1 = Topic.get_java_constant_name t2 ->
      Topic.name t1 = Topic.name t2).
Proof.
  intros K1 K2. unfold Topic.get_java_constant_name.
  rewrite !constant_name_form. split.
  - now apply semantic_form_constant_form.
  - intros E.
    rewrite <- (semantic_form_constant_form _ K1),
      <- (semantic_form_constant_form _ K2).
    now rewrite E.
Qed.

(** The two topics of the shipped topology. *)
Lemma constant_names_distinct_witness :
  semantic_form (Topic.get_java_constant_name Sample.created)
  = "specification-created"
  /\ (Topic.get_java_constant_name Sample.created
      = Topic.get_java_constant_name Sample.requested ->
      Topic.name Sample.created = Topic.name Sample.requested).
Proof.
  apply (constant_names_distinct Sample.created Sample.requested);
    reflexivity.
Defined.

(** ** The order of the entries *)

Lemma dict_mem_existsb {V : Type} (k : string) (d : dict V) :
  dict_mem k d = existsb (String.eqb k) (dict_keys d).
Proof.
  unfold dict_mem. induction d as [|[k' v] d IH]; [reflexivity|].
  simpl. rewrite (String.eqb_sym k k').
  destruct (String.eqb k' k); [reflexivity | exact IH].
Qed.

Lemma first_occurrences_nodup (seen l : list string) :
  NoDup l -> (forall k, In k l -> ~ In k seen) ->
  first_occurrences seen l = l.
Proof.
  revert seen. induction l as [|k l IH]; intros seen N H; [reflexivity|].
  inversion N as [|? ? Hn N']; subst. cbn [first_occurrences].
  destruct (existsb (String.eqb k) seen) eqn:E.
  - apply existsb_exists in E. destruct E as [x [Hx Ex]].
    apply String.eqb_eq in Ex. subst x.
    now destruct (H k (or_introl eq_refl)).
  - f_equal. apply IH; [exact N'|].
    intros k' Hk' Hs. apply in_app_iff in Hs. destruct Hs as [Hs|[<-|[]]].
    + apply (H k'); [now right | exact Hs].
    + contradiction.
Qed.

Lemma add_topics_order (events : dict Event.t) (l : list Topic.t)
    (c c' : collections) :
  add_topics events l c = inr c' ->
  dict_keys (channels c')
  = (dict_keys (channels c)
     ++ first_occurrences (dict_keys (channels c)) (List.map Topic.name l))%list
  /\ dict_keys (messages c')
     = (dict_keys (messages c)
        ++ first_occurrences (dict_keys (messages c))
                             (List.map Topic.event_schema l))%list
  /\ dict_keys (schemas c')
     = (dict_keys (schemas c)
        ++ first_occurrences (dict_keys (schemas c))
                             (List.map Topic.event_schema l))%list.
Proof.
  revert c. induction l as [|t l IH]; intros c H.
  - simpl in H. injection H as <-. simpl. now rewrite !app_nil_r.
  - cbn [add_topics] in H.
    destruct (add_topic events t c) as [e|c1] eqn:E1; [discriminate|].
    destruct (IH _ H) as [H1 [H2 H3]]. rewrite H1, H2, H3. clear IH H H1 H2 H3.
    unfold add_topic in E1.
    destruct (dict_get (Topic.event_schema t) events); [|discriminate].
    injection E1 as <-. cbn [channels messages schemas List.map
                              first_occurrences].
    rewrite dict_keys_set, <- !dict_mem_existsb.
    split; [|split].
    + destruct (dict_mem (Topic.name t) (channels c)); [reflexivity|].
      now rewrite <- app_assoc.
    + destruct (dict_mem (Topic.event_schema t) (messages c)) eqn:E;
        [reflexivity|].
      now rewrite dict_keys_set, E, <- app_assoc.
    + destruct (dict_mem (Topic.event_schema t) (schemas c)) eqn:E;
        [reflexivity|].
      now rewrite dict_keys_set, E, <- app_assoc.
Qed.

(** X12. The entries of the interface document come in the order of the
    topic list: the channels in the order in which the topic names first
    occur, the messages and the schemas in the order in which the event
    references first occur; when the topic names are pairwise distinct
    the channels are the topic names, one by one. *)
Theorem document_entries_in_topic_order (events : dict Event.t)
    (topics : list Topic.t) (c : collections) :
  add_topics events topics (mkCollections [] [] []) = inr c ->
  dict_keys (channels c)
  = first_occurrences [] (List.map Topic.name topics)
  /\ dict_keys (messages c)
     = first_occurrences [] (List.map Topic.event_schema topics)
  /\ dict_keys (schemas c)
     = first_occurrences [] (List.map Topic.event_schema topics)
  /\ (NoDup (List.map Topic.name topics) ->
      dict_keys (channels c) = List.map Topic.name topics).
Proof.
  intros H. destruct (add_topics_order _ _ _ _ H) as [H1 [H2 H3]].
  simpl in H1, H2, H3. repeat split; try assumption.
  intros N. rewrite H1. apply first_occurrences_nodup; [exact N | auto].
Qed.

(** Two topics on one event, then the first topic again. *)
Lemma document_entries_in_topic_order_witness :
  exists c,
    add_topics (events Sample.shared_event)
               [Sample.created; Sample.archived; Sample.created]
               (mkCollections [] [] []) = inr c
    /\ dict_keys (channels c)
       = ["specification-created"; "specification-archived"]
    /\ dict_keys (messages c) = ["SpecificationCreatedEventV1"].
Proof.
  eexists. split; [reflexivity|].
  split;
    apply (document_entries_in_topic_order (events Sample.shared_event)
             [Sample.created; Sample.archived; Sample.created] _ eq_refl).
Defined.

Lemma fold_store_keys (l : list (string * dict value))
    (events : dict Event.t) :
  dict_keys (fold_left store_event l events)
  = (dict_keys events
     ++ first_occurrences
          (dict_keys events)
          (List.map (fun f => Event.schema_name (event_of_file f)) l))%list.
Proof.
  revert events. induction l as [|f l IH]; intros events.
  - simpl. now rewrite app_nil_r.
  - cbn [fold_left List.map first_occurrences]. rewrite IH.
    unfold store_event at 1 2. rewrite dict_keys_set, <- dict_mem_existsb.
    destruct (dict_mem _ events); [reflexivity|]. now rewrite <- app_assoc.
Qed.

(** X13. Loading the events gives one event for each distinct schema
    identifier among the schema files, in the order in which the
    identifiers first occur among the files taken by name: files that
    share an identifier share one entry (the later file replacing the
    earlier one in place), and when the identifiers are pairwise distinct
    there are as many events as files. *)
Theorem events_one_per_identifier (repo : Repo)
    (json_files : list (string * dict value)) (g : Generator) :
  events_dir repo = Some json_files ->
  let files := sorted_glob ".json" json_files in
  let identifiers :=
    List.map (fun f => Event.schema_name (event_of_file f)) files in
  exists g',
    load_events repo g = (g', inr tt)
    /\ dict_keys (events g')
       = (dict_keys (events g)
          ++ first_occurrences (dict_keys (events g)) identifiers)%list
    /\ (events g = [] -> NoDup identifiers ->
        dict_keys (events g') = identifiers
        /\ List.length (events g') = List.length files).
Proof.
  intros E files identifiers. subst files identifiers.
  eexists. split; [apply (load_events_total repo json_files g E)|].
  cbn [events]. rewrite fold_store_keys. split; [reflexivity|].
  intros G N. rewrite G. cbn [dict_keys List.map List.app].
  rewrite (first_occurrences_nodup [] _ N) by (intros ? ? []).
  split; [reflexivity|].
  assert (L : List.length (dict_keys (fold_left store_event
                 (sorted_glob ".json" json_files) []))
              = List.length (sorted_glob ".json" json_files)).
  { rewrite fold_store_keys. cbn [dict_keys List.map List.app].
    rewrite (first_occurrences_nodup [] _ N) by (intros ? ? []).
    apply List.length_map. }
  unfold dict_keys in L. now rewrite List.length_map in L.
Qed.

(** Two schema files of one title. *)
Lemma events_one_per_identifier_witness :
  exists g',
    load_events
      {| events_dir :=
           Some [("b.v1.json", Sample.created_schema);
                 ("a.v1.json", Sample.created_schema)];
         topics_dir := None |} init = (g', inr tt)
    /\ dict_keys (events g') = ["SpecificationCreatedEventV1"].
Proof.
  destruct (events_one_per_identifier
              {| events_dir :=
                   Some [("b.v1.json", Sample.created_schema);
                         ("a.v1.json", Sample.created_schema)];
                 topics_dir := None |} _ init eq_refl)
    as [g' [L [K _]]].
  exists g'. split; [exact L | exact K].
Defined.

(** ** The files of a run are written once *)

Lemma written_app (a b : list fs_op) :
  written (a ++ b) = (written a ++ written b)%list.
Proof. apply flat_map_app. Qed.

Lemma written_java_ops (l : list Topic.t) :
  domains_defined l ->
  written (flat_map java_topic_ops l) = List.map java_class_path l.
Proof.
  induction l as [|t l IH]; intros D; [reflexivity|].
  cbn [flat_map List.map]. rewrite written_app, IH
    by (intros t' H'; apply D; now right).
  destruct (D t (or_introl eq_refl)) as [d Hd].
  destruct (java_topic_ops_defined t d Hd) as [_ ->]. reflexivity.
Qed.

Lemma java_class_path_fresh (t : Topic.t) :
  ~ In (java_class_path t)
       [java_registry_path; python_destination_path; python_topics_path]
  /\ java_class_path t <> asyncapi_path.
Proof.
  split; [intros [H|[H|[H|[]]]]|intros H]; vm_compute in H; discriminate.
Qed.

(** X14. A completed run writes no file twice when the class files of the
    topics are pairwise distinct (no two topics of one domain have the
    same class name): the interface document, each class file, the Java
    registry and the two Python files are written once each, and these
    are all the files it writes. *)
Theorem no_file_written_twice (repo : Repo) (g : Generator) :
  loaded repo = (g, inr tt) ->
  forallb (passes (events g)) (topics g) = true ->
  NoDup (List.map java_class_path (topics g)) ->
  written (performed (run repo))
  = (asyncapi_path :: List.map java_class_path (topics g)
     ++ [java_registry_path; python_destination_path; python_topics_path])%list
  /\ NoDup (written (performed (run repo))).
Proof.
  intros L V N.
  destruct (loaded_spec _ _ _ L) as [Log D]. specialize (D eq_refl).
  destruct (generation_total g D (passes_resolves _ _ V))
    as [c [registry [python_registry [_ [_ [_ G]]]]]].
  rewrite (run_after_validation repo g L V), G.
  cbn [performed logged_all fs_log]. rewrite Log. cbn [List.app].
  assert (W : written
                (WriteFile asyncapi_path (YamlDump (asyncapi_of c))
                 :: flat_map java_topic_ops (topics g)
                 ++ [WriteFile java_registry_path (Text registry);
                     WriteFile python_destination_path
                       (Text (python_destination_code (topics g)));
                     WriteFile python_topics_path (Text python_registry)])
              = (asyncapi_path :: List.map java_class_path (topics g)
                 ++ [java_registry_path; python_destination_path;
                     python_topics_path])%list).
  { change (WriteFile asyncapi_path (YamlDump (asyncapi_of c))
            :: (flat_map java_topic_ops (topics g) ++ ?l))%list
      with ([WriteFile asyncapi_path (YamlDump (asyncapi_of c))]
            ++ (flat_map java_topic_ops (topics g) ++ l))%list.
    rewrite !written_app, (written_java_ops _ D). reflexivity. }
  rewrite W. split; [reflexivity|].
  constructor.
  - intros H. apply in_app_iff in H. destruct H as [H|H].
    + apply in_map_iff in H. destruct H as [t [E _]].
      now apply (proj2 (java_class_path_fresh t)).
    + vm_compute in H. intuition discriminate.
  - apply NoDup_app; [exact N | | ].
    + vm_compute. repeat constructor; simpl; intuition discriminate.
    + intros p Hp Hq. apply in_map_iff in Hp. destruct Hp as [t [<- _]].
      now apply (proj1 (java_class_path_fresh t)).
Qed.

(** The files of the run over the shipped topology. *)
Lemma no_file_written_twice_witness :
  NoDup (written (performed (run Sample.repo)))
  /\ List.length (written (performed (run Sample.repo))) = 6.
Proof.
  split; [|reflexivity].
  apply (no_file_written_twice Sample.repo (fst (loaded Sample.repo))).
  - reflexivity.
  - reflexivity.
  - vm_compute. repeat constructor; simpl; intuition discriminate.
Defined.

(** ** What the emitted files refer to *)

(** X15. Every entry of the Python registry refers to a member that the
    enumeration of the destination module declares: for each loaded topic
    the registry entry sets its event type to the member named by the
    upper-cased event reference, and the module emitted in the same run
    has the member line of that very topic, under that name. *)
Theorem registry_event_types_declared (g : Generator) (t : Topic.t) :
  In t (topics g) ->
  In (upper (Topic.event_schema t) ++ " = " ++ dq ++ Topic.topic t ++ dq)
     (event_type_members (topics g))
  /\ exists before after,
       python_registry_entry t
       = before ++ "        event_type=EventType."
         ++ upper (Topic.event_schema t) ++ "," ++ after.
Proof.
  intros H. split.
  - unfold event_type_members.
    apply (in_map event_type_member). now apply sorted_in.
  - unfold python_registry_entry. cbv zeta.
    fold (python_subscriptions_text t).
    exists ("    " ++ join "_" (split "-" (upper (Topic.name t)))
            ++ " = Destination(" ++ nl ++ "        name=" ++ dq
            ++ Topic.name t ++ dq ++ "," ++ nl ++ "        topic=" ++ dq
            ++ Topic.topic t ++ dq ++ "," ++ nl ++ "        subscriptions="
            ++ python_subscriptions_text t ++ "," ++ nl).
    eexists. rewrite !append_assoc. reflexivity.
Qed.

(** The topic of the shipped topology that has one consumer. *)
Lemma registry_event_types_declared_witness :
  In ("SPECIFICATIONREQUESTEDEVENTV1 = " ++ dq
      ++ "aegis-test.specification.requested" ++ dq)
     (event_type_members (topics (fst (loaded Sample.repo)))).
Proof.
  apply (registry_event_types_declared (fst (loaded Sample.repo))
           Sample.requested).
  right. left. reflexivity.
Defined.

(** X16. The Java class of a topic is where its package says and is named
    as its file: for a topic of domain d and class name C, the file is
    C.java in the directory of d, the directory below the source root
    spells the package of the class, the class declares that package and
    the type C with its constructor, and the registry imports that package
    member and instantiates C. *)
Theorem java_class_matches_its_file (t : Topic.t) (domain : string) :
  domain_of t = Some domain ->
  let class := class_name_of t in
  let output := java_class_output t class domain in
  java_class_path t = List.app java_topics_dir [domain; class ++ ".java"]
  /\ String.concat "." (skipn 5 (List.app java_topics_dir [domain]))
     = "com.interfaces.aegis.test.topics." ++ domain
  /\ In ("package com.interfaces.aegis.test.topics." ++ domain ++ ";") output
  /\ In ("public final class " ++ class ++ " implements Destination {") output
  /\ In ("    public " ++ class ++ "() {") output
  /\ java_import t
     = inr ("import com.interfaces.aegis.test.topics." ++ domain ++ "."
            ++ class ++ ";")
  /\ In ("    public static final Destination "
         ++ Topic.get_java_constant_name t ++ " = new " ++ class ++ "();")
        (java_registry_entry t).
Proof.
  intros D class output. subst class output.
  split; [apply (java_topic_ops_defined t domain D)|].
  split; [reflexivity|].
  split; [unfold java_class_output; cbv zeta; cbn [List.concat];
          apply in_or_app; left; cbn [In]; find_line|].
  split; [unfold java_class_output; cbv zeta; cbn [List.concat];
          apply in_or_app; left; cbn [In]; find_line|].
  split; [unfold java_class_output; cbv zeta; cbn [List.concat];
          apply in_or_app; right; apply in_or_app; right;
          apply in_or_app; left; cbn [In]; find_line|].
  split; [unfold java_import; now rewrite D|].
  unfold java_registry_entry, Topic.get_java_constant_name. cbv zeta.
  cbn [In]. find_line.
Qed.

(** The class of the created topic of the shipped topology. *)
Lemma java_class_matches_its_file_witness :
  java_class_path Sample.created
  = List.app java_topics_dir ["specification"; "SpecificationCreated.java"]
  /\ java_import Sample.created
     = inr "import com.interfaces.aegis.test.topics.specification.SpecificationCreated;".
Proof.
  destruct (java_class_matches_its_file Sample.created "specification"
              eq_refl) as [P [_ [_ [_ [_ [I _]]]]]].
  split; [exact P | exact I].
Defined.
